(** * bitcoinaddress.validation: base58check and bech32 address validation

    A shallow embedding of [bitcoinaddress/validation.py] and the properties
    of its decoders and of [validate].

    Python values are embedded as follows.
    - [int] is [Z] (arbitrary precision, as in Python).
    - [str] is [list ascii]: a sequence of 8-bit code units.  The source only
      ever inspects characters through [ord], equality and membership in
      ASCII alphabets, and calls [lower]/[upper] either on text it has
      already checked to be printable ASCII ([bech32_decode]) or to compare
      the result with an ASCII prefix ([validate]); no code unit above 127
      lowercases to an ASCII letter, so the ASCII case mapping used below
      agrees with Python's on every such use.  [ord] is below 256 here,
      where Python 3 has code points up to 0x10FFFF: a property that needs
      a bound on [ord] is stated for printable ASCII text only.
    - [bytes] and [bytearray] are [list byte]: sequences of integers in
      [0, 256), as indexing a [bytearray] gives on every interpreter and
      indexing [bytes] gives on Python 3.
    - a call either returns, raises, or does not return: type [result].
    - the module is written for several interpreters and says so itself
      (the [except AttributeError] fallbacks are commented "Python version
      < 3.2"); what differs between them is captured by [python]. *)

From Stdlib Require Import ZArith List Bool Lia Arith.
From Stdlib Require Import Strings.Ascii Strings.String Strings.Byte.
Import ListNotations.
Local Open Scope Z_scope.

Set Implicit Arguments.

(** ** Outcomes of a call *)

Inductive exn : Type :=
| ValueError
| OverflowError
| TypeError
| IndexError
| AttributeError.

Inductive result (A : Type) : Type :=
| Return (a : A)
| Raise (e : exn)
| Diverge.

Arguments Return {A} a.
Arguments Raise {A} e.
Arguments Diverge {A}.

Definition bind {A B : Type} (c : result A) (k : A -> result B) : result B :=
  match c with
  | Return a => k a
  | Raise e => Raise e
  | Diverge => Diverge
  end.

Notation "x <- c ;; k" := (bind c (fun x => k))
  (at level 61, c at next level, right associativity).

(** [try: c  except e: h] *)
Definition exn_eqb (a b : exn) : bool :=
  match a, b with
  | ValueError, ValueError
  | OverflowError, OverflowError
  | TypeError, TypeError
  | IndexError, IndexError
  | AttributeError, AttributeError => true
  | _, _ => false
  end.

Definition try_except {A : Type} (c : result A) (e : exn) (h : result A)
  : result A :=
  match c with
  | Raise e' => if exn_eqb e' e then h else Raise e'
  | r => r
  end.

(** ** Interpreters

    [Py2]: Python 2; [str] is a byte string, [int] has no [to_bytes].
    [Py3]: Python 3 as the module runs on it (3.3 and later: the [u]
    prefix of the literal in [decode_base58] is not accepted by 3.0 to
    3.2); [str] is text, [int.to_bytes] and [int.from_bytes] exist.
    [Py31]: text [str] without [int.to_bytes], the case the fallback
    comments of the source have in mind; the module does not load on such
    an interpreter, and no result below depends on this case. *)

Inductive python : Type := Py2 | Py31 | Py3.

Definition has_int_bytes (py : python) : bool :=
  match py with Py3 => true | _ => false end.

Definition str_is_bytes (py : python) : bool :=
  match py with Py2 => true | _ => false end.

(** ** Built-ins on [str], [bytes] and [int] *)

Definition str := list ascii.
Definition bytes := list byte.

Definition lit (s : string) : str := list_ascii_of_string s.
Arguments lit s%_string.

Definition ord (c : ascii) : Z := Z.of_N (N_of_ascii c).

Definition byte_val (b : byte) : Z := Z.of_N (Byte.to_N b).

Definition mk_byte (z : Z) : byte :=
  match Byte.of_N (Z.to_N (z mod 256)) with
  | Some b => b
  | None => x00
  end.

Definition is_upper (c : ascii) : bool := (65 <=? ord c) && (ord c <=? 90).
Definition is_lower (c : ascii) : bool := (97 <=? ord c) && (ord c <=? 122).

Definition char_lower (c : ascii) : ascii :=
  if is_upper c then ascii_of_N (Z.to_N (ord c + 32)) else c.
Definition char_upper (c : ascii) : ascii :=
  if is_lower c then ascii_of_N (Z.to_N (ord c - 32)) else c.

(** [s.lower()], [s.upper()] *)
Definition lower (s : str) : str := map char_lower s.
Definition upper (s : str) : str := map char_upper s.

Definition str_eqb (a b : str) : bool :=
  if list_eq_dec ascii_dec a b then true else false.

Definition bytes_eqb (a b : bytes) : bool :=
  if list_eq_dec Byte.byte_eq_dec a b then true else false.

(** [s.find(c)] for a one-character [c]: first position, or -1. *)
Fixpoint find (s : str) (c : ascii) : Z :=
  match s with
  | [] => -1
  | x :: r => if Ascii.eqb x c then 0
              else let i := find r c in if i <? 0 then -1 else i + 1
  end.

(** [s.index(c)]: as [find], but absence raises [ValueError]. *)
Definition index (s : str) (c : ascii) : result Z :=
  let i := find s c in if i <? 0 then Raise ValueError else Return i.

(** [c in s] for a one-character [c]. *)
Definition contains (s : str) (c : ascii) : bool :=
  existsb (Ascii.eqb c) s.

(** [s.rfind(c)]: last position, or -1. *)
Fixpoint rfind_from (i : Z) (s : str) (c : ascii) (last : Z) : Z :=
  match s with
  | [] => last
  | x :: r => rfind_from (i + 1) r c (if Ascii.eqb x c then i else last)
  end.

Definition rfind (s : str) (c : ascii) : Z := rfind_from 0 s c (-1).

Definition len {A : Type} (l : list A) : Z := Z.of_nat (List.length l).

(** Slices [l[:i]] and [l[i:]] for [i >= 0], and [l[:-k]], [l[-k:]]. *)
Definition take {A : Type} (i : Z) (l : list A) : list A := firstn (Z.to_nat i) l.
Definition drop {A : Type} (i : Z) (l : list A) : list A := skipn (Z.to_nat i) l.
Definition drop_last {A : Type} (k : nat) (l : list A) : list A :=
  firstn (List.length l - k) l.
Definition take_last {A : Type} (k : nat) (l : list A) : list A :=
  skipn (List.length l - k) l.

(** [x << k] and [x >> k]: Python raises [ValueError] on a negative count. *)
Definition lshift (x k : Z) : result Z :=
  if k <? 0 then Raise ValueError else Return (Z.shiftl x k).
Definition rshift (x k : Z) : result Z :=
  if k <? 0 then Raise ValueError else Return (Z.shiftr x k).

(** ** Base58 *)

Definition digits58 : str :=
  lit "123456789ABCDEFGHJKLMNPQRSTUVWXYZabcdefghijkmnopqrstuvwxyz".
Definition CHARSET : str := lit "qpzry9x8gf2tvdw0s3jn54khce6mua7l".

Inductive byteorder : Type := little | big.

(** [sum(v << i * 8 for (i, v) in enumerate(l))] *)
Fixpoint sum_shifted (i : Z) (l : list Z) : Z :=
  match l with
  | [] => 0
  | v :: r => Z.shiftl v (i * 8) + sum_shifted (i + 1) r
  end.

Definition _bytes_to_long (bytestring : bytes) (order : byteorder) : Z :=
  match order with
  | little => sum_shifted 0 (map byte_val bytestring)
  | big => sum_shifted 0 (map byte_val (rev bytestring))
  end.

(** [range(length)] as a list of [int]; empty when [length <= 0]. *)
Definition range (length : Z) : list Z :=
  map Z.of_nat (seq 0 (Z.to_nat length)).

Definition _long_to_bytes (n length : Z) (order : byteorder) : bytes :=
  let indexes := match order with
                 | little => range length
                 | big => rev (range length)
                 end in
  map (fun i => mk_byte (Z.land (Z.shiftr n (i * 8)) 255)) indexes.

(** [n.to_bytes(length, 'big')]: the attribute exists on Python 3 only;
    it refuses a negative length, a negative [n] (unsigned conversion) and
    an [n] that does not fit in [length] bytes. *)
Definition int_to_bytes (py : python) (n length : Z) : result bytes :=
  if has_int_bytes py then
    if length <? 0 then Raise ValueError
    else if n <? 0 then Raise OverflowError
    else if 256 ^ length <=? n then Raise OverflowError
    else Return (map (fun i => mk_byte (Z.shiftr n (i * 8) mod 256))
                     (rev (range length)))
  else Raise AttributeError.

(** [int.from_bytes(b, 'big')] *)
Definition int_from_bytes (py : python) (b : bytes) : result Z :=
  if has_int_bytes py then
    Return (fold_left (fun acc x => acc * 256 + byte_val x) b 0)
  else Raise AttributeError.

Fixpoint decode_base58_loop (n : Z) (bitcoin_address : str) : result Z :=
  match bitcoin_address with
  | [] => Return n
  | char :: rest =>
      match index digits58 char with
      | Return d => decode_base58_loop (n * 58 + d) rest
      | _ => Raise ValueError
      end
  end.

Definition decode_base58 (py : python) (bitcoin_address : str) (length : Z)
  : result bytes :=
  n <- decode_base58_loop 0 bitcoin_address ;;
  try_except (int_to_bytes py n length) AttributeError
             (Return (_long_to_bytes n length big)).

(** The leading-zero count of [encode_base58]. *)
Fixpoint count_zeros (bytestring : bytes) : nat :=
  match bytestring with
  | [] => O
  | b :: rest => if byte_val b =? 0 then S (count_zeros rest) else O
  end.

(** [digits58[rest]]: a negative index counts from the end; [IndexError]
    outside the alphabet. *)
Definition digit58 (rest : Z) : result ascii :=
  if (0 <=? rest) && (rest <? len digits58)
  then Return (nth (Z.to_nat rest) digits58 zero)
  else if (- len digits58 <=? rest) && (rest <? 0)
  then Return (nth (Z.to_nat (len digits58 + rest)) digits58 zero)
  else Raise IndexError.

(** The [while n or rest] loop.  Each turn divides [n] by 58, so a number of
    turns equal to the binary size of the first quotient is enough; running
    out of [fuel] is reported as [Diverge]. *)
Fixpoint encode_base58_loop (fuel : nat) (n rest : Z) (result_ : str)
  : result str :=
  if (n =? 0) && (rest =? 0) then Return result_
  else match fuel with
       | O => Diverge
       | S fuel' =>
           c <- digit58 rest ;;
           encode_base58_loop fuel' (n / 58) (n mod 58) (result_ ++ [c])
       end.

Definition encode_base58 (py : python) (bytestring : bytes) : result str :=
  let zeros := count_zeros bytestring in
  n <- try_except (int_from_bytes py bytestring) AttributeError
                  (Return (_bytes_to_long bytestring big)) ;;
  result_ <- encode_base58_loop (S (Z.to_nat (Z.log2 n))) (n / 58) (n mod 58) [] ;;
  Return (repeat "1"%char zeros ++ rev result_).

(** ** hashlib.sha256

    The digest comes from the interpreter's library, not from this module;
    it is given here by its definition in FIPS 180-4 so that [validate] can
    be evaluated on concrete addresses. *)

Module SHA256.

Definition mask32 : Z := 0xffffffff.
Definition add32 (a b : Z) : Z := Z.land (a + b) mask32.
Definition rotr (n x : Z) : Z :=
  Z.lor (Z.shiftr x n) (Z.land (Z.shiftl x (32 - n)) mask32).
Definition shr (n x : Z) : Z := Z.shiftr x n.
Definition xor3 (a b c : Z) : Z := Z.lxor (Z.lxor a b) c.

Definition Ch (x y z : Z) : Z :=
  Z.lxor (Z.land x y) (Z.land (Z.lxor x mask32) z).
Definition Maj (x y z : Z) : Z :=
  xor3 (Z.land x y) (Z.land x z) (Z.land y z).
Definition Sigma0 (x : Z) : Z := xor3 (rotr 2 x) (rotr 13 x) (rotr 22 x).
Definition Sigma1 (x : Z) : Z := xor3 (rotr 6 x) (rotr 11 x) (rotr 25 x).
Definition sigma0 (x : Z) : Z := xor3 (rotr 7 x) (rotr 18 x) (shr 3 x).
Definition sigma1 (x : Z) : Z := xor3 (rotr 17 x) (rotr 19 x) (shr 10 x).

(** The constants are given as FIPS 180-4 defines them (sections 4.2.2 and
    5.3.3): the first thirty-two bits of the fractional parts of the cube
    roots of the first sixty-four primes, and of the square roots of the
    first eight. *)
Definition primes : list Z :=
  [2; 3; 5; 7; 11; 13; 17; 19; 23; 29; 31; 37; 41; 43; 47; 53; 59; 61; 67; 71;
   73; 79; 83; 89; 97; 101; 103; 107; 109; 113; 127; 131; 137; 139; 149; 151;
   157; 163; 167; 173; 179; 181; 191; 193; 197; 199; 211; 223; 227; 229; 233;
   239; 241; 251; 257; 263; 269; 271; 277; 281; 283; 293; 307; 311].

(** The largest [r + k] with [k < 2 ^ bits] whose cube is at most [n]. *)
Fixpoint cube_root_from (bits : nat) (n r : Z) : Z :=
  match bits with
  | O => r
  | S b =>
      let r' := r + 2 ^ Z.of_nat b in
      cube_root_from b n (if r' * r' * r' <=? n then r' else r)
  end.

Definition cube_root (n : Z) : Z := cube_root_from 40 n 0.

Definition K : list Z :=
  map (fun p => Z.land (cube_root (p * 2 ^ 96)) mask32) primes.

Definition H0 : list Z :=
  map (fun p => Z.land (Z.sqrt (p * 2 ^ 64)) mask32) (firstn 8 primes).

(** Big-endian bytes of a [width]-byte word, and back. *)
Fixpoint be_bytes (width : nat) (x : Z) : list Z :=
  match width with
  | O => []
  | S w => Z.land (Z.shiftr x (8 * Z.of_nat w)) 255 :: be_bytes w x
  end.

Definition be_word (l : list Z) : Z :=
  fold_left (fun acc b => acc * 256 + b) l 0.

(** Padding: the message, one 0x80 byte, zero bytes up to 56 modulo 64,
    then the bit length on 8 bytes. *)
Definition pad (msg : list Z) : list Z :=
  let l := Z.of_nat (List.length msg) in
  let k := (55 - l) mod 64 in
  msg ++ [128] ++ repeat 0 (Z.to_nat k) ++ be_bytes 8 (8 * l).

Fixpoint chunks (count size : nat) (l : list Z) : list (list Z) :=
  match count with
  | O => []
  | S c => firstn size l :: chunks c size (skipn size l)
  end.

(** The message schedule: [w] holds the last sixteen words. *)
Fixpoint schedule (count : nat) (w : list Z) : list Z :=
  match count with
  | O => []
  | S c =>
      let x := add32 (add32 (sigma1 (nth 14 w 0)) (nth 9 w 0))
                     (add32 (sigma0 (nth 1 w 0)) (nth 0 w 0)) in
      x :: schedule c (tl w ++ [x])
  end.

Record regs : Type :=
  mk_regs { ra : Z; rb : Z; rc : Z; rd : Z; re : Z; rf : Z; rg : Z; rh : Z }.

Definition round (s : regs) (kw : Z * Z) : regs :=
  let t1 := add32 (add32 (add32 (rh s) (Sigma1 (re s)))
                         (add32 (Ch (re s) (rf s) (rg s)) (fst kw)))
                  (snd kw) in
  let t2 := add32 (Sigma0 (ra s)) (Maj (ra s) (rb s) (rc s)) in
  mk_regs (add32 t1 t2) (ra s) (rb s) (rc s)
          (add32 (rd s) t1) (re s) (rf s) (rg s).

Definition compress (h : list Z) (block : list Z) : list Z :=
  let w16 := map be_word (chunks 16 4 block) in
  let w := w16 ++ schedule 48 w16 in
  let s0 := mk_regs (nth 0 h 0) (nth 1 h 0) (nth 2 h 0) (nth 3 h 0)
                    (nth 4 h 0) (nth 5 h 0) (nth 6 h 0) (nth 7 h 0) in
  let s := fold_left round (combine K w) s0 in
  map (fun p => add32 (fst p) (snd p))
      (combine h [ra s; rb s; rc s; rd s; re s; rf s; rg s; rh s]).

Definition digest_words (msg : list Z) : list Z :=
  let p := pad msg in
  fold_left compress (chunks (List.length p / 64) 64 p) H0.

(** [sha256(data).digest()] *)
Definition digest (data : bytes) : bytes :=
  map mk_byte (flat_map (be_bytes 4) (digest_words (map byte_val data))).

Definition hex (l : list Z) : Z := fold_left (fun acc w => acc * 2 ^ 32 + w) l 0.

End SHA256.

Definition sha256 : bytes -> bytes := SHA256.digest.

Definition ascii_bytes (s : string) : bytes := list_byte_of_string s.
Arguments ascii_bytes s%_string.

(** ** validate_base58 *)

(** [chr(int(mb))] followed by [bcbytes.startswith(...)].  [chr] raises
    [ValueError] outside its range (256 values on Python 2, the code points
    on Python 3).  On Python 2 the one-character [str] is a byte string and
    the prefix test compares the first byte; on Python 3 the argument is
    text and [startswith] of [bytes] or [bytearray] raises [TypeError]. *)
Definition startswith_chr (py : python) (bcbytes : bytes) (mb : Z) : result bool :=
  if str_is_bytes py then
    if (0 <=? mb) && (mb <? 256)
    then Return (bytes_eqb (firstn 1 bcbytes) [mk_byte mb])
    else Raise ValueError
  else
    if (0 <=? mb) && (mb <? 1114112) then Raise TypeError else Raise ValueError.

(** The [for mb in magicbyte: ... break / else: return False] loop:
    [true] when the loop ended by [break]. *)
Fixpoint magic_loop (py : python) (bcbytes : bytes) (magicbyte : list Z)
  : result bool :=
  match magicbyte with
  | [] => Return false
  | mb :: rest =>
      hit <- startswith_chr py bcbytes mb ;;
      if hit then Return true else magic_loop py bcbytes rest
  end.

Definition validate_base58 (py : python) (bitcoin_address : str)
  (magicbyte : list Z) : result bool :=
  let clen := len bitcoin_address in
  if (clen <? 27) || (clen >? 35) then Return false
  else
    match decode_base58 py bitcoin_address 25 with
    | Raise ValueError => Return false
    | Raise e => Raise e
    | Diverge => Diverge
    | Return bcbytes =>
        hit <- magic_loop py bcbytes magicbyte ;;
        if negb hit then Return false
        else
          let checksum := firstn 4 (sha256 (sha256 (drop_last 4 bcbytes))) in
          if negb (bytes_eqb (take_last 4 bcbytes) checksum) then Return false
          else
            encoded <- encode_base58 py bcbytes ;;
            Return (str_eqb bitcoin_address encoded)
    end.

(** ** Bech32 *)

Definition generator : list Z :=
  [0x3b6a57b2; 0x26508e6d; 0x1ea119fa; 0x3d4233dd; 0x2a1462b3].

Definition polymod_step (chk value : Z) : Z :=
  let top := Z.shiftr chk 25 in
  let chk := Z.lxor (Z.shiftl (Z.land chk 0x1ffffff) 5) value in
  fold_left
    (fun chk i =>
       Z.lxor chk (if Z.land (Z.shiftr top i) 1 =? 0 then 0
                   else nth (Z.to_nat i) generator 0))
    (range 5) chk.

Definition bech32_polymod (values : list Z) : Z :=
  fold_left polymod_step values 1.

Definition bech32_hrp_expand (hrp : str) : list Z :=
  map (fun x => Z.shiftr (ord x) 5) hrp ++ [0]
      ++ map (fun x => Z.land (ord x) 31) hrp.

Definition bech32_verify_checksum (hrp : str) (data : list Z) : bool :=
  bech32_polymod (bech32_hrp_expand hrp ++ data) =? 1.

(** [(None, None)] is [None]; [(hrp, data)] is [Some (hrp, data)]. *)
Definition bech32_decode (bech : str) : option (str * list Z) :=
  if existsb (fun x => (ord x <? 33) || (ord x >? 126)) bech
     || (negb (str_eqb (lower bech) bech) && negb (str_eqb (upper bech) bech))
  then None
  else
    let bech := lower bech in
    let pos := rfind bech "1"%char in
    if (pos <? 1) || (pos + 7 >? len bech) || (len bech >? 90) then None
    else if negb (forallb (contains CHARSET) (drop (pos + 1) bech)) then None
    else
      let hrp := take pos bech in
      let data := map (find CHARSET) (drop (pos + 1) bech) in
      if negb (bech32_verify_checksum hrp data) then None
      else Some (hrp, drop_last 6 data).

(** The inner [while bits >= tobits] loop.  With [tobits >= 1] it takes at
    most [bits] turns, which is the fuel [convertbits_loop] gives it; with
    [tobits = 0] the source loops for ever, and the fuel runs out. *)
Fixpoint drain (fuel : nat) (acc bits tobits maxv : Z) (ret : list Z)
  : result (Z * list Z) :=
  if bits >=? tobits then
    match fuel with
    | O => Diverge
    | S fuel' =>
        let bits := bits - tobits in
        x <- rshift acc bits ;;
        drain fuel' acc bits tobits maxv (ret ++ [Z.land x maxv])
    end
  else Return (bits, ret).

(** The [for value in data] loop: [None] is the early [return None],
    [Some (acc, bits, ret)] the state when the loop is over. *)
Fixpoint convertbits_loop (data : list Z) (frombits tobits maxv max_acc : Z)
  (acc bits : Z) (ret : list Z) : result (option (Z * Z * list Z)) :=
  match data with
  | [] => Return (Some (acc, bits, ret))
  | value :: rest =>
      if value <? 0 then Return None
      else
        high <- rshift value frombits ;;
        if negb (high =? 0) then Return None
        else
          shifted <- lshift acc frombits ;;
          let acc := Z.land (Z.lor shifted value) max_acc in
          let bits := bits + frombits in
          st <- drain (Z.to_nat bits) acc bits tobits maxv ret ;;
          convertbits_loop rest frombits tobits maxv max_acc acc (fst st) (snd st)
  end.

Definition convertbits (data : list Z) (frombits tobits : Z) (pad : bool)
  : result (option (list Z)) :=
  one <- lshift 1 tobits ;;
  let maxv := one - 1 in
  one' <- lshift 1 (frombits + tobits - 1) ;;
  let max_acc := one' - 1 in
  st <- convertbits_loop data frombits tobits maxv max_acc 0 0 [] ;;
  match st with
  | None => Return None
  | Some (acc, bits, ret) =>
      if pad then
        if negb (bits =? 0) then
          last <- lshift acc (tobits - bits) ;;
          Return (Some (ret ++ [Z.land last maxv]))
        else Return (Some ret)
      else if bits >=? frombits then Return None
      else
        last <- lshift acc (tobits - bits) ;;
        if negb (Z.land last maxv =? 0) then Return None
        else Return (Some ret)
  end.

(** [data[0]] *)
Definition item0 (data : list Z) : result Z :=
  match data with
  | [] => Raise IndexError
  | x :: _ => Return x
  end.

(** [decode]: [(None, None)] is [None]. *)
Definition decode (hrp : str) (addr : str) : result (option (Z * list Z)) :=
  match bech32_decode addr with
  | None => Return None
  | Some (hrpgot, data) =>
      if negb (str_eqb hrpgot hrp) then Return None
      else
        decoded <- convertbits (tl data) 5 8 false ;;
        match decoded with
        | None => Return None
        | Some decoded =>
            if (len decoded <? 2) || (len decoded >? 40) then Return None
            else
              v <- item0 data ;;
              if v >? 16 then Return None
              else
                v0 <- item0 data ;;
                if (v0 =? 0) && negb (len decoded =? 20)
                   && negb (len decoded =? 32)
                then Return None
                else
                  version <- item0 data ;;
                  Return (Some (version, decoded))
        end
  end.

Definition validate_bech32 (bitcoin_address : str) (hrp : str) : result bool :=
  r <- decode hrp bitcoin_address ;;
  Return (match r with Some _ => true | None => false end).

(** ** validate *)

Definition validate (py : python) (bitcoin_address : str) (testnet : bool)
  : result bool :=
  let magicbyte := if testnet then [111; 196] else [0; 5] in
  let bech32_hrp := if testnet then lit "tb" else lit "bc" in
  if str_eqb (lower (firstn 2 bitcoin_address)) bech32_hrp
  then validate_bech32 bitcoin_address bech32_hrp
  else validate_base58 py bitcoin_address magicbyte.


(** * Specification-side definitions

    These follow the words of the specification, not the code, and are what
    the code is compared with below. *)

(** The number a byte sequence denotes, most significant byte first. *)
Definition be_value (l : list Z) : Z :=
  fold_left (fun acc x => acc * 256 + x) l 0.

Definition bytes_value (b : bytes) : Z := be_value (map byte_val b).

(** The base-58 numeral a text denotes, accumulated left to right as
    [n = n * 58 + digit(char)]. *)
Definition base58_value (text : str) : Z :=
  fold_left (fun n c => n * 58 + find digits58 c) text 0.

Definition in_alphabet58 (text : str) : Prop :=
  Forall (fun c => In c digits58) text.

(** "Exactly [length] bytes, big-endian": the [length] low-order base-256
    digits of [n], most significant first. *)
Fixpoint low_order_bytes (length : nat) (n : Z) : bytes :=
  match length with
  | O => []
  | S k => low_order_bytes k (n / 256) ++ [mk_byte (n mod 256)]
  end.

(** Bit regrouping.  A value fits in [frombits] bits when it is in
    [0, 2^frombits).  The input, read as one string of bits, denotes
    [bitstream]; [leftover_bits] are the bits that remain once the full
    groups of [tobits] bits have been taken from the top. *)
Definition fits (frombits value : Z) : bool :=
  (0 <=? value) && (value <? 2 ^ frombits).

Definition bitstream (frombits : Z) (data : list Z) : Z :=
  fold_left (fun acc v => acc * 2 ^ frombits + v) data 0.

Definition leftover_bits (frombits tobits : Z) (data : list Z) : Z :=
  (frombits * len data) mod tobits.

(** Group number [j], counted from the most significant end. *)
Definition group (frombits tobits : Z) (data : list Z) (j : Z) : Z :=
  (bitstream frombits data / 2 ^ (frombits * len data - (j + 1) * tobits))
    mod 2 ^ tobits.

Definition regrouped (frombits tobits : Z) (data : list Z) : list Z :=
  map (group frombits tobits data) (range (frombits * len data / tobits)).

(** The leftover bits, shifted left to fill a group (zero-padded). *)
Definition padded_group (frombits tobits : Z) (data : list Z) : Z :=
  (bitstream frombits data mod 2 ^ leftover_bits frombits tobits data)
  * 2 ^ (tobits - leftover_bits frombits tobits data).

Definition convertbits_spec (data : list Z) (frombits tobits : Z) (pad : bool)
  : option (list Z) :=
  if forallb (fits frombits) data then
    if pad then
      Some (regrouped frombits tobits data
              ++ (if leftover_bits frombits tobits data =? 0 then []
                  else [padded_group frombits tobits data]))
    else if (leftover_bits frombits tobits data >=? frombits)
            || negb (padded_group frombits tobits data =? 0)
    then None
    else Some (regrouped frombits tobits data)
  else None.

(** A text of thirty-five 'z': the largest base58 numeral [validate_base58]
    lets through its length check. *)
Definition z35 : str := repeat "z"%char 35.

(** The characters a bech32 string is made of. *)
Definition printable (c : ascii) : bool := (33 <=? ord c) && (ord c <=? 126).

(** The state of [convertbits] once the values [p] have been consumed:
    accumulator, pending bit count, groups produced. *)
Definition state_after (frombits tobits : Z) (p : list Z) : Z * Z * list Z :=
  (bitstream frombits p mod 2 ^ (frombits + tobits - 1),
   leftover_bits frombits tobits p,
   regrouped frombits tobits p).

(** * Properties *)

(** ** Bytes and characters *)

Lemma byte_val_range (b : byte) : 0 <= byte_val b < 256.
Proof.
  unfold byte_val. pose proof (Byte.to_N_bounded b). lia.
Qed.

Lemma mk_byte_val (b : byte) : mk_byte (byte_val b) = b.
Proof.
  unfold mk_byte. pose proof (byte_val_range b) as R.
  rewrite Z.mod_small by exact R.
  unfold byte_val. rewrite N2Z.id, Byte.of_to_N. reflexivity.
Qed.

Lemma byte_val_mk (z : Z) : byte_val (mk_byte z) = z mod 256.
Proof.
  unfold mk_byte, byte_val.
  pose proof (Z.mod_pos_bound z 256 ltac:(lia)) as R.
  destruct (Byte.of_N (Z.to_N (z mod 256))) as [b|] eqn:E.
  - apply Byte.to_of_N in E. rewrite E. lia.
  - apply Byte.of_N_None_iff in E. lia.
Qed.

Lemma mk_byte_mod (z : Z) : mk_byte (z mod 256) = mk_byte z.
Proof.
  unfold mk_byte. rewrite Z.mod_mod by lia. reflexivity.
Qed.

Lemma str_eqb_eq (a b : str) : str_eqb a b = true <-> a = b.
Proof.
  unfold str_eqb. destruct (list_eq_dec ascii_dec a b); split; congruence.
Qed.

Lemma str_eqb_refl (a : str) : str_eqb a a = true.
Proof. apply str_eqb_eq. reflexivity. Qed.

Lemma bytes_eqb_eq (a b : bytes) : bytes_eqb a b = true <-> a = b.
Proof.
  unfold bytes_eqb. destruct (list_eq_dec Byte.byte_eq_dec a b); split; congruence.
Qed.

Lemma len_nonneg {A : Type} (l : list A) : 0 <= len l.
Proof. unfold len. lia. Qed.

Lemma len_app {A : Type} (l m : list A) : len (l ++ m) = len l + len m.
Proof. unfold len. rewrite length_app. lia. Qed.

Lemma len_cons {A : Type} (x : A) (l : list A) : len (x :: l) = len l + 1.
Proof. unfold len. simpl. lia. Qed.

(** ** Big-endian values *)

Lemma be_value_from (l : list Z) (a : Z) :
  fold_left (fun acc x => acc * 256 + x) l a = a * 256 ^ len l + be_value l.
Proof.
  unfold be_value. revert a. induction l as [|x l IH]; intros a.
  - simpl. unfold len. simpl. lia.
  - cbn [fold_left]. rewrite (IH (a * 256 + x)), (IH (0 * 256 + x)).
    rewrite len_cons, Z.pow_add_r by (pose proof (len_nonneg l); lia). lia.
Qed.

Lemma be_value_cons (x : Z) (l : list Z) :
  be_value (x :: l) = x * 256 ^ len l + be_value l.
Proof.
  unfold be_value at 1. simpl. rewrite be_value_from. lia.
Qed.

Lemma be_value_snoc (l : list Z) (x : Z) :
  be_value (l ++ [x]) = be_value l * 256 + x.
Proof.
  unfold be_value. rewrite fold_left_app. reflexivity.
Qed.

Lemma be_value_bound (l : list Z) :
  Forall (fun x => 0 <= x < 256) l -> 0 <= be_value l < 256 ^ len l.
Proof.
  induction 1 as [|x l Hx Hl IH].
  - unfold be_value, len. simpl. lia.
  - rewrite be_value_cons, len_cons.
    rewrite Z.pow_add_r by (pose proof (len_nonneg l); lia).
    assert (0 < 256 ^ len l) by (apply Z.pow_pos_nonneg; pose proof (len_nonneg l); lia).
    nia.
Qed.

Lemma byte_vals_range (b : bytes) : Forall (fun x => 0 <= x < 256) (map byte_val b).
Proof.
  induction b; simpl; constructor; auto using byte_val_range.
Qed.

Lemma bytes_value_bound (b : bytes) : 0 <= bytes_value b < 256 ^ len b.
Proof.
  unfold bytes_value.
  replace (len b) with (len (map byte_val b)) by (unfold len; rewrite length_map; reflexivity).
  apply be_value_bound, byte_vals_range.
Qed.

Lemma sum_shifted_snoc (l : list Z) (i v : Z) :
  sum_shifted i (l ++ [v]) = sum_shifted i l + Z.shiftl v ((i + len l) * 8).
Proof.
  revert i. induction l as [|x l IH]; intros i; simpl.
  - unfold len. simpl. rewrite !Z.add_0_r. reflexivity.
  - rewrite IH, len_cons. replace (i + 1 + len l) with (i + (len l + 1)) by lia.
    rewrite Z.add_assoc. reflexivity.
Qed.

Lemma sum_shifted_rev (l : list Z) : sum_shifted 0 (rev l) = be_value l.
Proof.
  induction l as [|x l IH].
  - reflexivity.
  - simpl rev. rewrite sum_shifted_snoc, IH, be_value_cons.
    replace (len (rev l)) with (len l) by (unfold len; rewrite length_rev; reflexivity).
    rewrite Z.shiftl_mul_pow2 by (pose proof (len_nonneg l); lia).
    replace ((0 + len l) * 8) with (8 * len l) by lia.
    rewrite Z.pow_mul_r by (pose proof (len_nonneg l); lia).
    change (2 ^ 8) with 256. lia.
Qed.

(** Both ways of reading a byte string as a number agree. *)
Lemma bytes_to_long_big (b : bytes) : _bytes_to_long b big = bytes_value b.
Proof.
  unfold _bytes_to_long, bytes_value. rewrite map_rev, sum_shifted_rev. reflexivity.
Qed.

Lemma fold_byte_val (b : bytes) (a : Z) :
  fold_left (fun acc x => acc * 256 + byte_val x) b a =
  fold_left (fun acc x => acc * 256 + x) (map byte_val b) a.
Proof.
  revert a. induction b as [|x b IH]; intros a; simpl; auto.
Qed.

Lemma from_bytes_value (py : python) (b : bytes) :
  try_except (int_from_bytes py b) AttributeError
             (Return (_bytes_to_long b big)) = Return (bytes_value b).
Proof.
  unfold int_from_bytes.
  destruct py; cbn [has_int_bytes try_except exn_eqb];
    rewrite ?bytes_to_long_big; try reflexivity.
  unfold bytes_value, be_value. rewrite fold_byte_val. reflexivity.
Qed.

(** ** Base58: the alphabet *)

Lemma find_bounds (s : str) (c : ascii) : -1 <= find s c < len s.
Proof.
  induction s as [|x s IH]; simpl.
  - unfold len. simpl. lia.
  - rewrite len_cons. destruct (Ascii.eqb x c).
    + pose proof (len_nonneg s). lia.
    + destruct (find s c <? 0) eqn:E; [apply Z.ltb_lt in E | apply Z.ltb_ge in E]; lia.
Qed.

Lemma find_In (s : str) (c : ascii) : In c s <-> 0 <= find s c.
Proof.
  induction s as [|x s IH]; simpl.
  - split; [tauto | lia].
  - destruct (Ascii.eqb x c) eqn:E.
    + apply Ascii.eqb_eq in E. split; [lia | auto].
    + apply Ascii.eqb_neq in E.
      destruct (find s c <? 0) eqn:F; [apply Z.ltb_lt in F | apply Z.ltb_ge in F].
      * split; [intros [H|H]; [congruence | apply IH in H; lia] | lia].
      * split; [lia | intros _; right; apply IH; lia].
Qed.

Lemma index_In (s : str) (c : ascii) : In c s -> index s c = Return (find s c).
Proof.
  intros H. apply find_In in H. unfold index.
  destruct (find s c <? 0) eqn:E; [apply Z.ltb_lt in E; lia | reflexivity].
Qed.

Lemma index_not_In (s : str) (c : ascii) : ~ In c s -> index s c = Raise ValueError.
Proof.
  intros H. unfold index.
  destruct (find s c <? 0) eqn:E; [reflexivity |].
  apply Z.ltb_ge in E. apply find_In in E. contradiction.
Qed.

Lemma contains_In (s : str) (c : ascii) : contains s c = true <-> In c s.
Proof.
  unfold contains. rewrite existsb_exists. split.
  - intros [x [Hx E]]. apply Ascii.eqb_eq in E. subst. exact Hx.
  - intros H. exists c. split; [exact H | apply Ascii.eqb_refl].
Qed.

(** Position [d] of the alphabet holds the digit whose index is [d]. *)
Lemma digit58_table :
  forallb (fun d => match digit58 d with
                    | Return c => contains digits58 c && (find digits58 c =? d)
                    | _ => false
                    end) (range 58) = true.
Proof. vm_compute. reflexivity. Qed.

Lemma digit58_index (d : Z) :
  0 <= d < 58 ->
  exists c, digit58 d = Return c /\ In c digits58 /\ find digits58 c = d.
Proof.
  intros H.
  assert (E : In d (range 58)).
  { unfold range. apply in_map_iff. exists (Z.to_nat d). split; [lia |].
    apply in_seq. lia. }
  pose proof digit58_table as T. rewrite forallb_forall in T.
  specialize (T d E). destruct (digit58 d) as [c| |]; try discriminate.
  apply andb_prop in T. destruct T as [T1 T2].
  exists c. split; [reflexivity |]. split.
  - apply contains_In. exact T1.
  - apply Z.eqb_eq. exact T2.
Qed.

Lemma in_alphabet58_dec (text : str) : {in_alphabet58 text} + {~ in_alphabet58 text}.
Proof.
  unfold in_alphabet58. apply Forall_dec. intros c. apply in_dec. apply ascii_dec.
Qed.

(** ** Base58: decoding *)

Lemma decode_loop_value (text : str) (n : Z) :
  in_alphabet58 text ->
  decode_base58_loop n text =
  Return (fold_left (fun n c => n * 58 + find digits58 c) text n).
Proof.
  intros H. revert n.
  induction H as [|c text Hc Ht IH]; intros n; cbn [decode_base58_loop fold_left].
  - reflexivity.
  - rewrite (index_In _ _ Hc). apply IH.
Qed.

Lemma decode_loop_invalid (text : str) (n : Z) :
  ~ in_alphabet58 text -> decode_base58_loop n text = Raise ValueError.
Proof.
  revert n. induction text as [|c text IH]; intros n H; cbn [decode_base58_loop].
  - exfalso. apply H. constructor.
  - destruct (in_dec ascii_dec c digits58) as [Hc|Hc].
    + rewrite (index_In _ _ Hc). apply IH. intros Ht. apply H. constructor; auto.
    + rewrite (index_not_In _ _ Hc). reflexivity.
Qed.

Lemma decode_loop_app (s t : str) (n : Z) :
  decode_base58_loop n (s ++ t) =
  (m <- decode_base58_loop n s ;; decode_base58_loop m t).
Proof.
  revert n. induction s as [|c s IH]; intros n; cbn [app decode_base58_loop].
  - reflexivity.
  - destruct (index digits58 c); cbn [bind]; auto.
Qed.

Lemma index_one : index digits58 "1"%char = Return 0.
Proof. vm_compute. reflexivity. Qed.

Lemma decode_loop_ones (k : nat) (t : str) :
  decode_base58_loop 0 (repeat "1"%char k ++ t) = decode_base58_loop 0 t.
Proof.
  induction k as [|k IH]; cbn [repeat app decode_base58_loop]; [reflexivity |].
  rewrite index_one. exact IH.
Qed.

Lemma base58_value_nonneg (text : str) :
  in_alphabet58 text -> 0 <= base58_value text.
Proof.
  intros H. unfold base58_value.
  enough (G : forall n, 0 <= n -> 0 <= fold_left (fun n c => n * 58 + find digits58 c) text n).
  { apply G. lia. }
  induction H as [|c text Hc Ht IH]; intros n Hn; cbn [fold_left]; [exact Hn |].
  apply IH. apply find_In in Hc. lia.
Qed.

(** ** Base58: fixed-width serialisation *)

Lemma range_S (k : nat) :
  range (Z.of_nat (S k)) = 0 :: map (fun i => i + 1) (range (Z.of_nat k)).
Proof.
  unfold range. rewrite !Nat2Z.id. simpl. f_equal.
  rewrite <- seq_shift, !map_map. apply map_ext. intros a. lia.
Qed.

Lemma long_to_bytes_low_order (n : Z) (k : nat) :
  _long_to_bytes n (Z.of_nat k) big = low_order_bytes k n.
Proof.
  unfold _long_to_bytes. revert n. induction k as [|k IH]; intros n.
  - reflexivity.
  - rewrite range_S. cbn [rev low_order_bytes]. rewrite map_app, <- IH.
    f_equal.
    + rewrite <- map_rev, map_map. apply map_ext_in. intros i Hi.
      apply in_rev in Hi. unfold range in Hi. apply in_map_iff in Hi.
      destruct Hi as [j [<- _]].
      f_equal. f_equal.
      rewrite !Z.shiftr_div_pow2 by lia.
      replace ((Z.of_nat j + 1) * 8) with (8 + Z.of_nat j * 8) by lia.
      rewrite Z.pow_add_r by lia.
      rewrite Z.div_div by (try apply Z.pow_pos_nonneg; lia).
      reflexivity.
    + simpl. rewrite Z.shiftr_0_r. change 255 with (Z.ones 8).
      rewrite Z.land_ones by lia. reflexivity.
Qed.

Lemma to_bytes_low_order (n : Z) (k : nat) :
  map (fun i => mk_byte (Z.shiftr n (i * 8) mod 256)) (rev (range (Z.of_nat k)))
  = low_order_bytes k n.
Proof.
  rewrite <- long_to_bytes_low_order. unfold _long_to_bytes.
  apply map_ext. intros i. change 255 with (Z.ones 8).
  rewrite Z.land_ones by lia. reflexivity.
Qed.

Lemma low_order_bytes_value (b : bytes) :
  low_order_bytes (List.length b) (bytes_value b) = b.
Proof.
  induction b as [|x b IH] using rev_ind.
  - reflexivity.
  - rewrite length_app. simpl List.length. rewrite Nat.add_1_r.
    unfold bytes_value in *. rewrite map_app. simpl map.
    rewrite be_value_snoc. cbn [low_order_bytes].
    pose proof (byte_val_range x).
    replace ((be_value (map byte_val b) * 256 + byte_val x) / 256)
      with (be_value (map byte_val b))
      by (apply Z.div_unique with (r := byte_val x); lia).
    rewrite IH. f_equal. f_equal.
    replace ((be_value (map byte_val b) * 256 + byte_val x) mod 256)
      with (byte_val x)
      by (apply Z.mod_unique with (q := be_value (map byte_val b)); lia).
    apply mk_byte_val.
Qed.

(** How [decode_base58] serialises the number it has accumulated. *)
Lemma serialise_fits (py : python) (n length : Z) :
  0 <= length -> 0 <= n < 256 ^ length ->
  try_except (int_to_bytes py n length) AttributeError
             (Return (_long_to_bytes n length big))
  = Return (low_order_bytes (Z.to_nat length) n).
Proof.
  intros Hl Hn. remember (Z.to_nat length) as k eqn:Hk.
  assert (E : length = Z.of_nat k) by lia. clear Hk. subst length.
  unfold int_to_bytes.
  destruct py; cbn [has_int_bytes try_except exn_eqb];
    rewrite ?long_to_bytes_low_order; try reflexivity.
  destruct (Z.of_nat k <? 0) eqn:E1; [apply Z.ltb_lt in E1; lia |].
  destruct (n <? 0) eqn:E2; [apply Z.ltb_lt in E2; lia |].
  destruct (256 ^ Z.of_nat k <=? n) eqn:E3; [apply Z.leb_le in E3; lia |].
  cbn [try_except]. rewrite to_bytes_low_order. reflexivity.
Qed.

Lemma serialise_overflow (py : python) (n length : Z) :
  0 <= length -> 256 ^ length <= n ->
  try_except (int_to_bytes py n length) AttributeError
             (Return (_long_to_bytes n length big))
  = if has_int_bytes py then Raise OverflowError
    else Return (low_order_bytes (Z.to_nat length) n).
Proof.
  intros Hl Hn. remember (Z.to_nat length) as k eqn:Hk.
  assert (E : length = Z.of_nat k) by lia. clear Hk. subst length.
  assert (0 < 256 ^ Z.of_nat k) by (apply Z.pow_pos_nonneg; lia).
  unfold int_to_bytes.
  destruct py; cbn [has_int_bytes try_except exn_eqb];
    rewrite ?long_to_bytes_low_order; try reflexivity.
  destruct (Z.of_nat k <? 0) eqn:E1; [apply Z.ltb_lt in E1; lia |].
  destruct (n <? 0) eqn:E2; [apply Z.ltb_lt in E2; lia |].
  destruct (256 ^ Z.of_nat k <=? n) eqn:E3; [| apply Z.leb_gt in E3; lia].
  reflexivity.
Qed.

Lemma alphabet_check (text : str) :
  forallb (contains digits58) text = true -> in_alphabet58 text.
Proof.
  intros H. rewrite forallb_forall in H. apply Forall_forall. intros c Hc.
  apply contains_In. apply H. exact Hc.
Qed.

(** ** Base58: what [decode_base58] does *)

Lemma decode_base58_alphabet (py : python) (text : str) (length : Z) (b : bytes) :
  decode_base58 py text length = Return b -> in_alphabet58 text.
Proof.
  intros H. destruct (in_alphabet58_dec text) as [Ha | Ha]; [exact Ha |].
  unfold decode_base58 in H. rewrite (decode_loop_invalid 0 Ha) in H.
  discriminate H.
Qed.

Lemma decode_base58_invalid (py : python) (text : str) (length : Z) :
  ~ in_alphabet58 text -> decode_base58 py text length = Raise ValueError.
Proof.
  intros Ha. unfold decode_base58. rewrite (decode_loop_invalid 0 Ha). reflexivity.
Qed.

Lemma decode_base58_fits (py : python) (text : str) (length : Z) :
  in_alphabet58 text -> 0 <= length -> base58_value text < 256 ^ length ->
  decode_base58 py text length
  = Return (low_order_bytes (Z.to_nat length) (base58_value text)).
Proof.
  intros Ha Hl Hv. unfold decode_base58.
  rewrite (decode_loop_value 0 Ha). cbn [bind].
  apply serialise_fits; [exact Hl |].
  split; [apply base58_value_nonneg; exact Ha | exact Hv].
Qed.

Lemma decode_base58_wide (py : python) (text : str) (length : Z) :
  in_alphabet58 text -> 0 <= length -> 256 ^ length <= base58_value text ->
  decode_base58 py text length =
  if has_int_bytes py then Raise OverflowError
  else Return (low_order_bytes (Z.to_nat length) (base58_value text)).
Proof.
  intros Ha Hl Hn. unfold decode_base58.
  rewrite (decode_loop_value 0 Ha). cbn [bind].
  apply serialise_overflow; assumption.
Qed.

(** ** Base58: encoding *)

Lemma count_zeros_repeat (k : nat) : count_zeros (repeat x00 k) = k.
Proof.
  induction k as [|k IH]; simpl; [reflexivity | rewrite IH; reflexivity].
Qed.

Lemma bytes_value_zeros (k : nat) : bytes_value (repeat x00 k) = 0.
Proof.
  unfold bytes_value, be_value.
  induction k as [|k IH]; simpl; [reflexivity | exact IH].
Qed.

(** The digit loop returns, and what it appends reads back, most significant
    digit first, as the number it was given. *)
Lemma encode_loop_decodes (fuel : nat) :
  forall (n : Z) (acc : str),
    0 <= n < 2 ^ Z.of_nat fuel ->
    exists ds,
      encode_base58_loop fuel (n / 58) (n mod 58) acc = Return (acc ++ ds)
      /\ decode_base58_loop 0 (rev ds) = Return n.
Proof.
  induction fuel as [|fuel IH]; intros n acc Hn.
  - assert (n = 0) by (simpl in Hn; lia). subst n.
    exists []. simpl. rewrite app_nil_r. auto.
  - destruct (Z.eq_dec n 0) as [->|Hnz].
    + exists []. simpl. rewrite app_nil_r. auto.
    + pose proof (Z.mod_pos_bound n 58 ltac:(lia)) as Hr.
      pose proof (Z.div_mod n 58 ltac:(lia)) as Hdm.
      assert (Hq : 0 <= n / 58) by (apply Z.div_pos; lia).
      cbn [encode_base58_loop].
      destruct ((n / 58 =? 0) && (n mod 58 =? 0)) eqn:E.
      { apply andb_true_iff in E. destruct E as [E1 E2].
        apply Z.eqb_eq in E1, E2. lia. }
      destruct (digit58_index Hr) as [c [Hc [Hin Hfind]]].
      rewrite Hc. cbn [bind].
      destruct (IH (n / 58) (acc ++ [c])) as [ds [Hds Hdec]].
      { split; [exact Hq |].
        rewrite Nat2Z.inj_succ, Z.pow_succ_r in Hn by lia.
        apply Z.div_lt_upper_bound; lia. }
      exists (c :: ds). split.
      * rewrite Hds, <- app_assoc. reflexivity.
      * cbn [rev]. rewrite decode_loop_app, Hdec. cbn [bind decode_base58_loop].
        rewrite (index_In _ _ Hin), Hfind. f_equal. lia.
Qed.

Lemma log2_fuel (n : Z) : 0 <= n -> 0 <= n < 2 ^ Z.of_nat (S (Z.to_nat (Z.log2 n))).
Proof.
  intros Hn. split; [exact Hn |].
  rewrite Nat2Z.inj_succ, Z2Nat.id by apply Z.log2_nonneg.
  destruct (Z.eq_dec n 0) as [->|Hnz]; [simpl; lia |].
  apply Z.log2_spec. lia.
Qed.

(** [encode_base58] returns on every byte string, and its text reads back
    as the number the bytes denote. *)
Lemma encode_base58_decodes (py : python) (b : bytes) :
  exists s,
    encode_base58 py b = Return s
    /\ decode_base58_loop 0 s = Return (bytes_value b).
Proof.
  unfold encode_base58. rewrite from_bytes_value. cbn [bind].
  pose proof (bytes_value_bound b) as Hb.
  destruct (@encode_loop_decodes (S (Z.to_nat (Z.log2 (bytes_value b))))
              (bytes_value b) []) as [ds [Hds Hdec]].
  { apply log2_fuel. lia. }
  rewrite Hds. cbn [bind app].
  eexists. split; [reflexivity |].
  rewrite decode_loop_ones. exact Hdec.
Qed.

Lemma encode_then_decode (py : python) (b : bytes) :
  exists s,
    encode_base58 py b = Return s /\ decode_base58 py s (len b) = Return b.
Proof.
  destruct (encode_base58_decodes py b) as [s [Hs Hd]].
  exists s. split; [exact Hs |].
  unfold decode_base58. rewrite Hd. cbn [bind].
  rewrite serialise_fits.
  - unfold len. rewrite Nat2Z.id. f_equal. apply low_order_bytes_value.
  - apply len_nonneg.
  - apply bytes_value_bound.
Qed.

(** ** Base58: the claims *)

(** C9. For every count k, [encode_base58] of k zero bytes is the text of k
    characters '1'; for k = 0 both are empty.  This holds on every
    interpreter. *)
Theorem encode_base58_zero_bytes (py : python) (k : nat) :
  encode_base58 py (repeat x00 k) = Return (repeat "1"%char k).
Proof.
  unfold encode_base58.
  rewrite from_bytes_value, bytes_value_zeros, count_zeros_repeat.
  simpl. rewrite app_nil_r. reflexivity.
Qed.

(** C3. For every byte sequence b of length 25, [encode_base58] returns a
    text, and [decode_base58] of that text at width 25 returns b: encoding
    then decoding is the identity, on every interpreter. *)
Theorem base58_roundtrip_25 (py : python) (b : bytes) :
  List.length b = 25%nat ->
  exists s, encode_base58 py b = Return s /\ decode_base58 py s 25 = Return b.
Proof.
  intros H. destruct (encode_then_decode py b) as [s [Hs Hd]].
  exists s. split; [exact Hs |].
  unfold len in Hd. rewrite H in Hd. exact Hd.
Qed.

Lemma base58_roundtrip_25_witness :
  List.length (repeat x07 25) = 25%nat /\
  exists s, encode_base58 Py3 (repeat x07 25) = Return s
            /\ decode_base58 Py3 s 25 = Return (repeat x07 25).
Proof.
  split; [reflexivity | apply (@base58_roundtrip_25 Py3 (repeat x07 25)); reflexivity].
Defined.

Lemma z35_alphabet : in_alphabet58 z35.
Proof.
  unfold in_alphabet58, z35. apply Forall_forall. intros c Hc.
  apply repeat_spec in Hc. subst c. vm_compute. tauto.
Qed.

(** A text of thirty-five 'z' is over the alphabet and denotes a number of
    more than 25 bytes; where [int.to_bytes] exists, [decode_base58] raises
    [OverflowError] on it and so does not return the low-order 25 bytes. *)
Lemma decode_base58_overflow_raises :
  in_alphabet58 z35 /\ 256 ^ 25 <= base58_value z35
  /\ decode_base58 Py3 z35 25 = Raise OverflowError
  /\ decode_base58 Py3 z35 25
     <> Return (low_order_bytes 25 (base58_value z35)).
Proof.
  assert (E : decode_base58 Py3 z35 25 = Raise OverflowError)
    by (vm_compute; reflexivity).
  split; [apply z35_alphabet |].
  split; [vm_compute; discriminate |].
  split; [exact E |].
  rewrite E. discriminate.
Qed.

(** C2. The two serialisation paths of [decode_base58] disagree on a text
    over the alphabet whose number needs more than [length] bytes: the
    fallback [_long_to_bytes] returns the [length] low-order bytes of the
    number, as the specification says, while [int.to_bytes], taken
    wherever it exists (Python 3), raises [OverflowError]. *)
Theorem decode_base58_too_wide (py : python) (text : str) (length : Z) :
  in_alphabet58 text -> 0 <= length -> 256 ^ length <= base58_value text ->
  decode_base58 py text length =
  if has_int_bytes py then Raise OverflowError
  else Return (low_order_bytes (Z.to_nat length) (base58_value text)).
Proof.
  apply decode_base58_wide.
Qed.

Lemma decode_base58_too_wide_witness :
  decode_base58 Py2 z35 25 =
  Return (low_order_bytes (Z.to_nat 25) (base58_value z35))
  /\ decode_base58 Py3 z35 25 = Raise OverflowError.
Proof.
  split.
  - apply (@decode_base58_too_wide Py2 z35 25);
      [apply z35_alphabet | lia | vm_compute; discriminate].
  - apply (@decode_base58_too_wide Py3 z35 25);
      [apply z35_alphabet | lia | vm_compute; discriminate].
Defined.

(** ** Ranges and the inner loop of [convertbits] *)

Lemma seq_from (a c : nat) : seq a c = map (fun k => (a + k)%nat) (seq 0 c).
Proof.
  induction c as [|c IH].
  - reflexivity.
  - rewrite !seq_S, map_app, IH. simpl. reflexivity.
Qed.

Lemma range_app (a c : Z) :
  0 <= a -> 0 <= c -> range (a + c) = range a ++ map (fun k => a + k) (range c).
Proof.
  intros Ha Hc. unfold range.
  rewrite Z2Nat.inj_add, seq_app, map_app by assumption. f_equal.
  simpl. rewrite (seq_from (Z.to_nat a)), !map_map.
  apply map_ext. intros k. lia.
Qed.

Lemma range_nonpos (n : Z) : n <= 0 -> range n = [].
Proof.
  intros H. unfold range. replace (Z.to_nat n) with 0%nat by lia. reflexivity.
Qed.

Lemma range_one : range 1 = [0].
Proof. reflexivity. Qed.

Lemma in_range (n k : Z) : In k (range n) <-> 0 <= k < n.
Proof.
  unfold range. rewrite in_map_iff. split.
  - intros [j [<- Hj]]. apply in_seq in Hj. lia.
  - intros H. exists (Z.to_nat k). split; [lia | apply in_seq; lia].
Qed.

(** What the inner loop appends: one group per [tobits] bits available. *)
Lemma drain_returns (tobits maxv acc : Z) (fuel : nat) :
  0 < tobits ->
  forall (bits : Z) (ret : list Z),
    0 <= bits -> (Z.to_nat bits <= fuel)%nat ->
    drain fuel acc bits tobits maxv ret =
    Return (bits mod tobits,
            ret ++ map (fun k => Z.land (Z.shiftr acc (bits - (k + 1) * tobits)) maxv)
                       (range (bits / tobits))).
Proof.
  intros Ht. induction fuel as [|fuel IH]; intros bits ret Hb Hf.
  - assert (bits = 0) by lia. subst bits. cbn [drain].
    destruct (0 >=? tobits) eqn:E; [apply Z.geb_le in E; lia |].
    rewrite Z.mod_0_l, Z.div_0_l by lia.
    rewrite range_nonpos by lia. cbn [map]. rewrite app_nil_r. reflexivity.
  - cbn [drain]. destruct (bits >=? tobits) eqn:E.
    + apply Z.geb_le in E. unfold rshift.
      destruct (bits - tobits <? 0) eqn:E2; [apply Z.ltb_lt in E2; lia |].
      cbn [bind]. rewrite IH by lia.
      assert (Em : (bits - tobits) mod tobits = bits mod tobits).
      { replace bits with ((bits - tobits) + 1 * tobits) at 2 by lia.
        rewrite Z.mod_add by lia. reflexivity. }
      assert (Ed : bits / tobits = 1 + (bits - tobits) / tobits).
      { replace bits with ((bits - tobits) + 1 * tobits) at 1 by lia.
        rewrite Z.div_add by lia. lia. }
      rewrite Em, Ed.
      rewrite range_app by (try apply Z.div_pos; lia).
      rewrite range_one. cbn [map app]. rewrite <- app_assoc. cbn [app].
      replace (bits - (0 + 1) * tobits) with (bits - tobits) by lia.
      rewrite map_map. do 4 f_equal.
      apply map_ext. intros k. do 2 f_equal. lia.
    + rewrite Z.geb_leb in E. apply Z.leb_gt in E.
      rewrite Z.mod_small, Z.div_small by lia.
      rewrite range_nonpos by lia. cbn [map]. rewrite app_nil_r. reflexivity.
Qed.

(** ** Arithmetic of shifts and masks *)

Lemma shiftl_lor_add (a v f : Z) :
  0 <= f -> 0 <= v < 2 ^ f -> Z.lor (Z.shiftl a f) v = a * 2 ^ f + v.
Proof.
  intros Hf Hv.
  assert (E : Z.land (Z.shiftl a f) v = 0).
  { apply Z.bits_inj'. intros n Hn. rewrite Z.land_spec, Z.bits_0.
    destruct (Z.lt_ge_cases n f).
    - rewrite Z.shiftl_spec_low by lia. reflexivity.
    - replace v with (v mod 2 ^ f) by (apply Z.mod_small; lia).
      rewrite Z.mod_pow2_bits_high by lia. apply andb_false_r. }
  rewrite <- Z.lxor_lor by exact E. rewrite <- Z.add_nocarry_lxor by exact E.
  rewrite Z.shiftl_mul_pow2 by lia. reflexivity.
Qed.

Lemma mask_ones (n : Z) : Z.shiftl 1 n - 1 = Z.ones n.
Proof. unfold Z.ones. rewrite Z.sub_1_r. reflexivity. Qed.

(** Bits [e .. e+t) of a number are not changed by reducing it modulo a
    power of two that covers them. *)
Lemma window_mod (N M e t : Z) :
  0 <= e -> 0 <= t -> e + t <= M ->
  ((N mod 2 ^ M) / 2 ^ e) mod 2 ^ t = (N / 2 ^ e) mod 2 ^ t.
Proof.
  intros He Ht HM. apply Z.bits_inj'. intros n Hn.
  destruct (Z.lt_ge_cases n t).
  - rewrite !Z.mod_pow2_bits_low by lia.
    rewrite !Z.div_pow2_bits by lia.
    rewrite Z.mod_pow2_bits_low by lia. reflexivity.
  - rewrite !Z.mod_pow2_bits_high by lia. reflexivity.
Qed.

Lemma mod_mod_pow2 (N M L : Z) :
  0 <= L <= M -> (N mod 2 ^ M) mod 2 ^ L = N mod 2 ^ L.
Proof.
  intros H. apply Z.bits_inj'. intros n Hn.
  destruct (Z.lt_ge_cases n L).
  - rewrite !Z.mod_pow2_bits_low by lia. reflexivity.
  - rewrite !Z.mod_pow2_bits_high by lia. reflexivity.
Qed.

Lemma fits_spec (frombits value : Z) :
  fits frombits value = true <-> 0 <= value < 2 ^ frombits.
Proof.
  unfold fits. rewrite andb_true_iff, Z.leb_le, Z.ltb_lt. tauto.
Qed.

Lemma forallb_false_witness {A : Type} (f : A -> bool) (l : list A) :
  forallb f l = false -> exists x, In x l /\ f x = false.
Proof.
  induction l as [|x l IH]; cbn [forallb]; [discriminate |].
  destruct (f x) eqn:E; cbn [andb]; intros H.
  - destruct (IH H) as [y [Hy Hf]]. exists y. split; [right; exact Hy | exact Hf].
  - exists x. split; [left; reflexivity | exact E].
Qed.

(** The source's test [value < 0 or (value >> frombits)]. *)
Lemma fits_test (frombits value : Z) :
  0 <= frombits ->
  (value <? 0) || negb (Z.shiftr value frombits =? 0) = negb (fits frombits value).
Proof.
  intros Hf. unfold fits.
  assert (0 < 2 ^ frombits) by (apply Z.pow_pos_nonneg; lia).
  rewrite Z.shiftr_div_pow2 by exact Hf.
  destruct (value <? 0) eqn:E1.
  - apply Z.ltb_lt in E1. replace (0 <=? value) with false by (symmetry; apply Z.leb_gt; lia).
    reflexivity.
  - apply Z.ltb_ge in E1. replace (0 <=? value) with true by (symmetry; apply Z.leb_le; lia).
    cbn [orb andb]. f_equal.
    destruct (value <? 2 ^ frombits) eqn:E2.
    + apply Z.ltb_lt in E2. apply Z.eqb_eq. apply Z.div_small. lia.
    + apply Z.ltb_ge in E2. apply Z.eqb_neq. intros E.
      apply Z.div_small_iff in E; lia.
Qed.

(** ** Bech32: regrouping bits *)

Section Regrouping.

Variables frombits tobits : Z.
Hypothesis Hfrom : 0 <= frombits.
Hypothesis Hto : 0 < tobits.

Let width := frombits + tobits - 1.

Lemma bitstream_snoc (p : list Z) (v : Z) :
  bitstream frombits (p ++ [v]) = bitstream frombits p * 2 ^ frombits + v.
Proof. unfold bitstream. rewrite fold_left_app. reflexivity. Qed.

Lemma leftover_range (p : list Z) :
  0 <= leftover_bits frombits tobits p < tobits.
Proof. unfold leftover_bits. apply Z.mod_pos_bound. exact Hto. Qed.

Lemma total_bits (p : list Z) :
  frombits * len p =
  (frombits * len p / tobits) * tobits + leftover_bits frombits tobits p.
Proof.
  unfold leftover_bits.
  pose proof (Z.div_mod (frombits * len p) tobits ltac:(lia)). lia.
Qed.

(** A group already complete is not changed by one more value. *)
Lemma group_snoc (p : list Z) (v j : Z) :
  0 <= v < 2 ^ frombits -> 0 <= j -> (j + 1) * tobits <= frombits * len p ->
  group frombits tobits (p ++ [v]) j = group frombits tobits p j.
Proof.
  intros Hv Hj Hle. unfold group.
  rewrite bitstream_snoc, len_app. change (len [v]) with 1.
  replace (frombits * (len p + 1) - (j + 1) * tobits)
    with (frombits + (frombits * len p - (j + 1) * tobits)) by lia.
  rewrite Z.pow_add_r by lia.
  assert (0 < 2 ^ frombits) by (apply Z.pow_pos_nonneg; lia).
  assert (0 < 2 ^ (frombits * len p - (j + 1) * tobits))
    by (apply Z.pow_pos_nonneg; lia).
  rewrite <- Z.div_div by lia.
  rewrite Z.div_add_l by lia. rewrite (Z.div_small v) by lia.
  rewrite Z.add_0_r. reflexivity.
Qed.

(** What the inner loop reads from the accumulator is the next group. *)
Lemma group_new (p : list Z) (v k : Z) :
  0 <= k ->
  (k + 1) * tobits <= leftover_bits frombits tobits p + frombits ->
  Z.land (Z.shiftr (bitstream frombits (p ++ [v]) mod 2 ^ width)
                   (leftover_bits frombits tobits p + frombits - (k + 1) * tobits))
         (Z.ones tobits)
  = group frombits tobits (p ++ [v]) (frombits * len p / tobits + k).
Proof.
  intros Hk Hle. pose proof (leftover_range p) as HL.
  pose proof (total_bits p) as HT.
  rewrite Z.land_ones by lia. rewrite Z.shiftr_div_pow2 by lia.
  unfold group. rewrite len_app. change (len [v]) with 1.
  replace (frombits * (len p + 1) - (frombits * len p / tobits + k + 1) * tobits)
    with (leftover_bits frombits tobits p + frombits - (k + 1) * tobits) by lia.
  apply window_mod; unfold width; nia.
Qed.

Lemma regrouped_snoc (p : list Z) (v : Z) :
  0 <= v < 2 ^ frombits ->
  regrouped frombits tobits (p ++ [v]) =
  regrouped frombits tobits p ++
  map (fun k => Z.land (Z.shiftr (bitstream frombits (p ++ [v]) mod 2 ^ width)
                          (leftover_bits frombits tobits p + frombits
                           - (k + 1) * tobits))
                       (Z.ones tobits))
      (range ((leftover_bits frombits tobits p + frombits) / tobits)).
Proof.
  intros Hv. pose proof (leftover_range p) as HL.
  pose proof (total_bits p) as HT. pose proof (len_nonneg p) as Hn.
  assert (Hq : 0 <= frombits * len p / tobits) by (apply Z.div_pos; nia).
  assert (Hq' : 0 <= (leftover_bits frombits tobits p + frombits) / tobits)
    by (apply Z.div_pos; lia).
  unfold regrouped at 1. rewrite len_app. change (len [v]) with 1.
  replace (frombits * (len p + 1) / tobits)
    with (frombits * len p / tobits
          + (leftover_bits frombits tobits p + frombits) / tobits).
  2:{ replace (frombits * (len p + 1))
        with ((frombits * len p / tobits) * tobits
              + (leftover_bits frombits tobits p + frombits)) by lia.
      rewrite Z.div_add_l by lia. reflexivity. }
  rewrite range_app, map_app by assumption. f_equal.
  - apply map_ext_in. intros j Hj. apply in_range in Hj.
    apply group_snoc; [exact Hv | lia | nia].
  - rewrite map_map. apply map_ext_in. intros k Hk. apply in_range in Hk.
    symmetry. apply group_new; [lia |].
    pose proof (Z.mul_div_le (leftover_bits frombits tobits p + frombits) tobits Hto).
    nia.
Qed.

Lemma convertbits_loop_spec (rest : list Z) :
  forall p : list Z,
    convertbits_loop rest frombits tobits (Z.ones tobits) (Z.ones width)
      (bitstream frombits p mod 2 ^ width)
      (leftover_bits frombits tobits p)
      (regrouped frombits tobits p)
    = Return (if forallb (fits frombits) rest
              then Some (state_after frombits tobits (p ++ rest)) else None).
Proof.
  induction rest as [|v rest IH]; intros p.
  - cbn [convertbits_loop forallb]. rewrite app_nil_r. reflexivity.
  - cbn [convertbits_loop forallb].
    pose proof (fits_test v Hfrom) as Ht.
    destruct (v <? 0) eqn:E1.
    { cbn [orb] in Ht. apply (f_equal negb) in Ht. rewrite negb_involutive in Ht.
      rewrite <- Ht. reflexivity. }
    unfold rshift at 1.
    destruct (frombits <? 0) eqn:E2; [apply Z.ltb_lt in E2; lia |].
    cbn [bind]. cbn [orb] in Ht. rewrite Ht.
    destruct (fits frombits v) eqn:Hv; cbn [negb andb]; [| reflexivity].
    apply fits_spec in Hv.
    unfold lshift. rewrite E2. cbn [bind].
    pose proof (leftover_range p) as HL.
    assert (Hw : 0 <= width) by (unfold width; lia).
    assert (Hacc : Z.land (Z.lor (Z.shiftl (bitstream frombits p mod 2 ^ width) frombits) v)
                          (Z.ones width)
                   = bitstream frombits (p ++ [v]) mod 2 ^ width).
    { rewrite Z.land_ones by exact Hw.
      rewrite shiftl_lor_add by assumption.
      rewrite bitstream_snoc.
      assert (2 ^ width <> 0) by (apply Z.pow_nonzero; lia).
      rewrite Z.add_mod by assumption.
      rewrite Z.mul_mod_idemp_l by assumption.
      rewrite <- Z.add_mod by assumption. reflexivity. }
    rewrite Hacc.
    rewrite drain_returns by (try exact Hto; lia).
    cbn [bind fst snd].
    rewrite <- regrouped_snoc by exact Hv.
    replace ((leftover_bits frombits tobits p + frombits) mod tobits)
      with (leftover_bits frombits tobits (p ++ [v])).
    2:{ unfold leftover_bits. rewrite len_app. change (len [v]) with 1.
        rewrite Z.add_mod_idemp_l by lia. f_equal. lia. }
    rewrite IH. rewrite <- app_assoc. reflexivity.
Qed.

(** The final group [(acc << (tobits - bits)) & maxv]. *)
Lemma last_group (p : list Z) :
  Z.land (Z.shiftl (bitstream frombits p mod 2 ^ width)
                   (tobits - leftover_bits frombits tobits p))
         (Z.ones tobits)
  = padded_group frombits tobits p.
Proof.
  pose proof (leftover_range p) as HL.
  rewrite Z.land_ones by lia. rewrite Z.shiftl_mul_pow2 by lia.
  unfold padded_group.
  replace (2 ^ tobits)
    with (2 ^ leftover_bits frombits tobits p
          * 2 ^ (tobits - leftover_bits frombits tobits p)).
  2:{ rewrite <- Z.pow_add_r by lia. f_equal. lia. }
  rewrite Z.mul_mod_distr_r
    by (apply Z.pow_nonzero; lia).
  rewrite mod_mod_pow2 by (unfold width; lia). reflexivity.
Qed.

Lemma convertbits_refines (data : list Z) (pad : bool) :
  convertbits data frombits tobits pad
  = Return (convertbits_spec data frombits tobits pad).
Proof.
  unfold convertbits, lshift.
  destruct (tobits <? 0) eqn:E1; [apply Z.ltb_lt in E1; lia |].
  destruct (frombits + tobits - 1 <? 0) eqn:E2; [apply Z.ltb_lt in E2; lia |].
  cbn [bind]. rewrite !mask_ones.
  pose proof (convertbits_loop_spec data []) as L.
  change (bitstream frombits [] mod 2 ^ width) with (0 mod 2 ^ width) in L.
  rewrite Z.mod_0_l in L by (apply Z.pow_nonzero; unfold width; lia).
  change (leftover_bits frombits tobits []) with ((frombits * 0) mod tobits) in L.
  rewrite Z.mul_0_r, Z.mod_0_l in L by lia.
  change (regrouped frombits tobits [])
    with (map (group frombits tobits []) (range (frombits * 0 / tobits))) in L.
  rewrite Z.mul_0_r, Z.div_0_l in L by lia.
  change (map (group frombits tobits []) (range 0)) with (@nil Z) in L.
  fold width. rewrite L. cbn [bind app]. unfold convertbits_spec.
  destruct (forallb (fits frombits) data); [| reflexivity].
  unfold state_after. pose proof (leftover_range data) as HL.
  destruct pad.
  - destruct (leftover_bits frombits tobits data =? 0) eqn:E3; cbn [negb].
    + rewrite app_nil_r. reflexivity.
    + destruct (tobits - leftover_bits frombits tobits data <? 0) eqn:E4;
        [apply Z.ltb_lt in E4; lia |].
      cbn [bind]. rewrite last_group. reflexivity.
  - destruct (leftover_bits frombits tobits data >=? frombits); [reflexivity |].
    destruct (tobits - leftover_bits frombits tobits data <? 0) eqn:E4;
      [apply Z.ltb_lt in E4; lia |].
    cbn [bind orb]. rewrite last_group.
    destruct (padded_group frombits tobits data =? 0); reflexivity.
Qed.

End Regrouping.

(** C8. With a non-negative source width and a positive target width,
    [convertbits] returns, and what it returns is what the specification
    says: [None] exactly when some value does not fit in [frombits] bits, or
    when [pad] is false and the leftover bits are at least [frombits] or are
    not all zero once shifted into a group; otherwise the regrouped
    sequence, followed when [pad] is true and bits are left over by the
    zero-padded final group. *)
Theorem convertbits_regroups (data : list Z) (frombits tobits : Z) (pad : bool) :
  0 <= frombits -> 0 < tobits ->
  convertbits data frombits tobits pad
  = Return (convertbits_spec data frombits tobits pad)
  /\ (convertbits data frombits tobits pad = Return None <->
      (exists v, In v data /\ ~ (0 <= v < 2 ^ frombits))
      \/ (pad = false
          /\ (frombits <= leftover_bits frombits tobits data
              \/ padded_group frombits tobits data <> 0))).
Proof.
  intros Hf Ht. pose proof (convertbits_refines Hf Ht data pad) as R.
  split; [exact R |]. rewrite R. unfold convertbits_spec.
  destruct (forallb (fits frombits) data) eqn:F.
  - rewrite forallb_forall in F.
    assert (NF : ~ exists v, In v data /\ ~ (0 <= v < 2 ^ frombits)).
    { intros [v [Hin Hv]]. apply Hv. apply fits_spec. apply F. exact Hin. }
    destruct pad.
    + split; [discriminate |]. intros [H | [H _]]; [contradiction | discriminate].
    + destruct (leftover_bits frombits tobits data >=? frombits) eqn:E1.
      * rewrite Z.geb_leb in E1. apply Z.leb_le in E1. cbn [orb].
        split; [intros _; right; split; [reflexivity | left; exact E1] | reflexivity].
      * rewrite Z.geb_leb in E1. apply Z.leb_gt in E1. cbn [orb].
        destruct (padded_group frombits tobits data =? 0) eqn:E2; cbn [negb].
        -- apply Z.eqb_eq in E2. split; [discriminate |].
           intros [H | [_ [H | H]]]; [contradiction | lia | contradiction].
        -- apply Z.eqb_neq in E2.
           split; [intros _; right; split; [reflexivity | right; exact E2] | reflexivity].
  - split; [intros _ | reflexivity]. left.
    apply forallb_false_witness in F. destruct F as [v [Hin Hv]].
    exists v. split; [exact Hin |]. intros H. apply fits_spec in H. congruence.
Qed.

Lemma convertbits_regroups_witness :
  convertbits [31; 0; 17] 5 8 true
  = Return (convertbits_spec [31; 0; 17] 5 8 true)
  /\ (convertbits [31; 0; 17] 5 8 true = Return None <->
      (exists v, In v [31; 0; 17] /\ ~ (0 <= v < 2 ^ 5))
      \/ (true = false
          /\ (5 <= leftover_bits 5 8 [31; 0; 17]
              \/ padded_group 5 8 [31; 0; 17] <> 0))).
Proof.
  apply (@convertbits_regroups [31; 0; 17] 5 8 true); lia.
Defined.

(** ** Case mapping *)

Ltac ascii_cases c := destruct c as [[] [] [] [] [] [] [] []].

Lemma char_lower_upper (c : ascii) : char_lower (char_upper c) = char_lower c.
Proof. ascii_cases c; vm_compute; reflexivity. Qed.

Lemma char_lower_idem (c : ascii) : char_lower (char_lower c) = char_lower c.
Proof. ascii_cases c; vm_compute; reflexivity. Qed.

Lemma char_upper_idem (c : ascii) : char_upper (char_upper c) = char_upper c.
Proof. ascii_cases c; vm_compute; reflexivity. Qed.

Lemma char_lower_moves (c : ascii) : is_upper c = true -> char_lower c <> c.
Proof. ascii_cases c; vm_compute; intros H; try discriminate H; intros E; discriminate E. Qed.

Lemma char_upper_moves (c : ascii) : is_lower c = true -> char_upper c <> c.
Proof. ascii_cases c; vm_compute; intros H; try discriminate H; intros E; discriminate E. Qed.

(** Neither mapping moves a character into or out of the range 33..126. *)
Lemma char_case_range (c : ascii) :
  (ord (char_upper c) <? 33) || (ord (char_upper c) >? 126)
  = (ord (char_lower c) <? 33) || (ord (char_lower c) >? 126).
Proof. ascii_cases c; vm_compute; reflexivity. Qed.

Lemma lower_upper (s : str) : lower (upper s) = lower s.
Proof.
  unfold lower, upper. rewrite map_map. apply map_ext. apply char_lower_upper.
Qed.

Lemma lower_idem (s : str) : lower (lower s) = lower s.
Proof.
  unfold lower. rewrite map_map. apply map_ext. apply char_lower_idem.
Qed.

Lemma upper_idem (s : str) : upper (upper s) = upper s.
Proof.
  unfold upper. rewrite map_map. apply map_ext. apply char_upper_idem.
Qed.

Lemma map_fixed {A : Type} (f : A -> A) (l : list A) :
  map f l = l -> forall x, In x l -> f x = x.
Proof.
  induction l as [|y l IH]; cbn [map]; intros E x Hx; [destruct Hx |].
  injection E as E1 E2. destruct Hx as [<- | Hx]; [exact E1 | apply IH; assumption].
Qed.

Lemma mixed_case_differs (s : str) :
  (exists c, In c s /\ is_upper c = true) ->
  (exists c, In c s /\ is_lower c = true) ->
  str_eqb (lower s) s = false /\ str_eqb (upper s) s = false.
Proof.
  intros [u [Hu Eu]] [l [Hl El]]. split.
  - destruct (str_eqb (lower s) s) eqn:E; [| reflexivity].
    apply str_eqb_eq in E. exfalso.
    apply (@char_lower_moves u Eu). apply (@map_fixed _ char_lower s E u Hu).
  - destruct (str_eqb (upper s) s) eqn:E; [| reflexivity].
    apply str_eqb_eq in E. exfalso.
    apply (@char_upper_moves l El). apply (@map_fixed _ char_upper s E l Hl).
Qed.

Lemma range_check_case (s : str) :
  existsb (fun x => (ord x <? 33) || (ord x >? 126)) (upper s)
  = existsb (fun x => (ord x <? 33) || (ord x >? 126)) (lower s).
Proof.
  induction s as [|c s IH]; [reflexivity |].
  cbn [upper lower map existsb]. fold (upper s). fold (lower s).
  rewrite IH, char_case_range. reflexivity.
Qed.

(** ** Bech32: parsing *)

Lemma bech32_decode_mixed (s : str) :
  (exists c, In c s /\ is_upper c = true) ->
  (exists c, In c s /\ is_lower c = true) ->
  bech32_decode s = None.
Proof.
  intros Hu Hl. destruct (mixed_case_differs s Hu Hl) as [E1 E2].
  unfold bech32_decode. rewrite E1, E2. cbn [negb andb].
  rewrite orb_true_r. reflexivity.
Qed.

Lemma bech32_decode_case (s : str) :
  bech32_decode (upper s) = bech32_decode (lower s).
Proof.
  unfold bech32_decode.
  rewrite range_check_case, lower_upper, upper_idem, lower_idem.
  rewrite !str_eqb_refl. cbn [negb andb]. rewrite andb_false_r. reflexivity.
Qed.

(** What a successful parse says about the text. *)
Lemma bech32_decode_Some (addr hrp : str) (data : list Z) :
  bech32_decode addr = Some (hrp, data) ->
  let bech := lower addr in
  let pos := rfind bech "1"%char in
  existsb (fun x => (ord x <? 33) || (ord x >? 126)) addr = false
  /\ 1 <= pos /\ pos + 7 <= len bech /\ len bech <= 90
  /\ forallb (contains CHARSET) (drop (pos + 1) bech) = true
  /\ hrp = take pos bech
  /\ bech32_verify_checksum hrp (map (find CHARSET) (drop (pos + 1) bech)) = true
  /\ data = drop_last 6 (map (find CHARSET) (drop (pos + 1) bech)).
Proof.
  intros H. unfold bech32_decode in H. cbv zeta in H |- *.
  set (bech := lower addr) in *. set (pos := rfind bech "1"%char) in *.
  destruct (existsb (fun x => (ord x <? 33) || (ord x >? 126)) addr) eqn:E0;
    [discriminate |].
  cbn [orb] in H.
  destruct (negb (str_eqb bech addr) && negb (str_eqb (upper addr) addr));
    [discriminate |].
  destruct (pos <? 1) eqn:E1; [discriminate |].
  destruct (pos + 7 >? len bech) eqn:E2; [discriminate |].
  destruct (len bech >? 90) eqn:E3; [discriminate |].
  cbn [orb] in H.
  destruct (forallb (contains CHARSET) (drop (pos + 1) bech)) eqn:E4;
    [| discriminate].
  cbn [negb] in H.
  destruct (bech32_verify_checksum (take pos bech)
              (map (find CHARSET) (drop (pos + 1) bech))) eqn:E5;
    [| discriminate].
  cbn [negb] in H.
  apply (f_equal (fun o => match o with Some p => p | None => (hrp, data) end)) in H.
  cbv beta iota in H. apply pair_equal_spec in H. destruct H as [H1 H2].
  fold bech in H1, H2. fold pos in H1, H2.
  apply Z.ltb_ge in E1. rewrite Z.gtb_ltb in E2, E3.
  apply Z.ltb_ge in E2. apply Z.ltb_ge in E3.
  split; [reflexivity |]. split; [exact E1 |]. split; [exact E2 |].
  split; [exact E3 |]. split; [reflexivity |].
  split; [symmetry; exact H1 |].
  split; [rewrite <- H1; exact E5 | symmetry; exact H2].
Qed.

(** ** Segwit addresses *)

Lemma convertbits_5_8 (data : list Z) :
  convertbits data 5 8 false = Return (convertbits_spec data 5 8 false).
Proof. apply convertbits_refines; lia. Qed.

(** The checks of [decode] once the text is parsed and regrouped. *)
Lemma decode_checks (hrp addr : str) (v : Z) (rest prog : list Z) :
  bech32_decode addr = Some (hrp, v :: rest) ->
  convertbits rest 5 8 false = Return (Some prog) ->
  decode hrp addr =
  Return (if (len prog <? 2) || (len prog >? 40) then None
          else if v >? 16 then None
          else if (v =? 0) && negb (len prog =? 20) && negb (len prog =? 32)
               then None
               else Some (v, prog)).
Proof.
  intros Hd Hc. unfold decode. rewrite Hd, str_eqb_refl. cbn [negb tl].
  rewrite Hc. cbn [bind item0].
  destruct ((len prog <? 2) || (len prog >? 40)); [reflexivity |].
  destruct (v >? 16); [reflexivity |].
  destruct ((v =? 0) && negb (len prog =? 20) && negb (len prog =? 32));
    reflexivity.
Qed.

(** What a successful [decode] says about the text. *)
Lemma decode_Some (hrp addr : str) (v : Z) (prog : list Z) :
  decode hrp addr = Return (Some (v, prog)) ->
  exists rest,
    bech32_decode addr = Some (hrp, v :: rest)
    /\ convertbits rest 5 8 false = Return (Some prog)
    /\ v <= 16 /\ 2 <= len prog <= 40
    /\ (v = 0 -> len prog = 20 \/ len prog = 32).
Proof.
  unfold decode. intros H.
  destruct (bech32_decode addr) as [[hrpgot data]|]; [| discriminate].
  destruct (str_eqb hrpgot hrp) eqn:Eh; cbn [negb] in H; [| discriminate].
  apply str_eqb_eq in Eh. subst hrpgot.
  destruct (convertbits (tl data) 5 8 false) as [[decoded|]| |] eqn:Ec;
    cbn [bind] in H; try discriminate.
  destruct ((len decoded <? 2) || (len decoded >? 40)) eqn:E1; [discriminate |].
  destruct data as [|v0 rest]; cbn [item0 bind] in H; [discriminate |].
  destruct (v0 >? 16) eqn:E2; [discriminate |].
  destruct ((v0 =? 0) && negb (len decoded =? 20) && negb (len decoded =? 32))
    eqn:E3; [discriminate |].
  assert (Ev : v0 = v) by congruence. assert (Ep : decoded = prog) by congruence.
  subst v0 decoded. exists rest. cbn [tl] in Ec.
  split; [reflexivity |]. split; [exact Ec |].
  apply orb_false_iff in E1. destruct E1 as [E1a E1b].
  apply Z.ltb_ge in E1a. rewrite Z.gtb_ltb in E1b, E2.
  apply Z.ltb_ge in E1b. apply Z.ltb_ge in E2.
  split; [exact E2 |]. split; [lia |].
  intros Hv. apply Z.eqb_eq in Hv. rewrite Hv in E3. cbn [andb] in E3.
  apply andb_false_iff in E3. rewrite !negb_false_iff, !Z.eqb_eq in E3. exact E3.
Qed.

(** [decode] returns on every text: no exception, no endless loop. *)
Lemma decode_returns (hrp addr : str) : exists r, decode hrp addr = Return r.
Proof.
  unfold decode.
  destruct (bech32_decode addr) as [[hrpgot data]|]; [| eauto].
  destruct (negb (str_eqb hrpgot hrp)); [eauto |].
  rewrite convertbits_5_8. cbn [bind].
  destruct (convertbits_spec (tl data) 5 8 false) as [decoded|] eqn:E; [| eauto].
  destruct data as [|v rest].
  - cbn [tl] in E. vm_compute in E. assert (decoded = []) by congruence.
    subst decoded. exists None. reflexivity.
  - destruct ((len decoded <? 2) || (len decoded >? 40)); [eauto |].
    cbn [item0 bind]. destruct (v >? 16); [eauto |].
    destruct ((v =? 0) && negb (len decoded =? 20) && negb (len decoded =? 32));
      eauto.
Qed.

(** ** Dispatch in [validate] *)

Lemma hrp_prefix (addr hrp : str) (data : list Z) :
  bech32_decode addr = Some (hrp, data) -> List.length hrp = 2%nat ->
  lower (firstn 2 addr) = hrp.
Proof.
  intros H Hl. apply bech32_decode_Some in H.
  destruct H as [_ [_ [_ [_ [_ [H _]]]]]].
  unfold lower at 1. rewrite <- firstn_map. fold (lower addr).
  unfold take in H.
  set (n := Z.to_nat (rfind (lower addr) "1"%char)) in *.
  assert (Hn : (2 <= n)%nat).
  { rewrite H, length_firstn in Hl. lia. }
  subst hrp. transitivity (firstn 2 (firstn n (lower addr))).
  - rewrite firstn_firstn. replace (Nat.min 2 n) with 2%nat by lia. reflexivity.
  - apply firstn_all2. lia.
Qed.

Lemma validate_bech32_path (py : python) (addr : str) (testnet : bool)
  (data : list Z) :
  bech32_decode addr = Some (if testnet then lit "tb" else lit "bc", data) ->
  validate py addr testnet
  = validate_bech32 addr (if testnet then lit "tb" else lit "bc").
Proof.
  intros H. unfold validate.
  rewrite (@hrp_prefix addr _ data H) by (destruct testnet; reflexivity).
  rewrite str_eqb_refl. reflexivity.
Qed.

(** ** Segwit addresses: the claims *)

(** C10. Whenever [bech32_decode] succeeds with an empty data part (the
    text after the separator is the six checksum symbols and nothing else),
    [decode] returns [(None, None)] for every expected prefix: the length
    test on the regrouped program rejects the text before [data[0]] is
    read, so no [IndexError] is raised. *)
Theorem decode_empty_data (hrp addr hrpgot : str) :
  bech32_decode addr = Some (hrpgot, []) -> decode hrp addr = Return None.
Proof.
  intros H. unfold decode. rewrite H.
  destruct (negb (str_eqb hrpgot hrp)); reflexivity.
Qed.

Lemma decode_empty_data_witness :
  bech32_decode (lit "bc1gmk9yu") = Some (lit "bc", [])
  /\ decode (lit "bc") (lit "bc1gmk9yu") = Return None.
Proof.
  split; [vm_compute; reflexivity |].
  apply (@decode_empty_data (lit "bc") (lit "bc1gmk9yu") (lit "bc")).
  vm_compute. reflexivity.
Defined.

(** C6. Whenever [decode] succeeds, the witness version is at most 16, the
    program has between 2 and 40 bytes, and a version 0 program has 20 or 32
    bytes.  Conversely a text that parses and regroups but breaks one of
    these bounds makes [decode] return [(None, None)], [validate_bech32]
    return [False], and so [validate] return [False] on the network whose
    prefix it carries. *)
Theorem decode_segwit_bounds (hrp addr : str) :
  (forall (v : Z) (prog : list Z),
      decode hrp addr = Return (Some (v, prog)) ->
      v <= 16 /\ 2 <= len prog <= 40
      /\ (v = 0 -> len prog = 20 \/ len prog = 32))
  /\ (forall (v : Z) (rest prog : list Z),
         bech32_decode addr = Some (hrp, v :: rest) ->
         convertbits rest 5 8 false = Return (Some prog) ->
         16 < v \/ len prog < 2 \/ 40 < len prog
         \/ (v = 0 /\ len prog <> 20 /\ len prog <> 32) ->
         decode hrp addr = Return None
         /\ validate_bech32 addr hrp = Return false
         /\ (forall (py : python) (testnet : bool),
                hrp = (if testnet then lit "tb" else lit "bc") ->
                validate py addr testnet = Return false)).
Proof.
  split.
  - intros v prog H. apply decode_Some in H.
    destruct H as [rest [_ [_ [H1 [H2 H3]]]]]. auto.
  - intros v rest prog Hd Hc Hbad.
    assert (E : decode hrp addr = Return None).
    { rewrite (@decode_checks hrp addr v rest prog Hd Hc).
      destruct ((len prog <? 2) || (len prog >? 40)) eqn:E1; [reflexivity |].
      destruct (v >? 16) eqn:E2; [reflexivity |].
      destruct ((v =? 0) && negb (len prog =? 20) && negb (len prog =? 32))
        eqn:E3; [reflexivity |].
      exfalso.
      apply orb_false_iff in E1. destruct E1 as [E1a E1b].
      apply Z.ltb_ge in E1a. rewrite Z.gtb_ltb in E1b, E2.
      apply Z.ltb_ge in E1b. apply Z.ltb_ge in E2.
      destruct Hbad as [H | [H | [H | [H0 [H20 H32]]]]]; lia. }
    assert (F : validate_bech32 addr hrp = Return false).
    { unfold validate_bech32. rewrite E. reflexivity. }
    split; [exact E |]. split; [exact F |].
    intros py testnet Hh. subst hrp.
    rewrite (@validate_bech32_path py addr testnet (v :: rest) Hd). exact F.
Qed.

Lemma decode_segwit_bounds_witness :
  (16 <= 16 /\ 2 <= len [117; 30] <= 40
   /\ (16 = 0 -> len [117; 30] = 20 \/ len [117; 30] = 32))
  /\ validate Py3 (lit "BC13W508D6QEJXTDG4Y5R3ZARVARY0C5XW7KN40WF2") false
     = Return false.
Proof.
  split.
  - apply (proj1 (decode_segwit_bounds (lit "bc") (lit "BC1SW50QA3JX3S")) 16 [117; 30]).
    vm_compute. reflexivity.
  - refine (proj2 (proj2 (proj2 (decode_segwit_bounds (lit "bc")
              (lit "BC13W508D6QEJXTDG4Y5R3ZARVARY0C5XW7KN40WF2")) 17 _ _ _ _ _))
              Py3 false eq_refl).
    + vm_compute. reflexivity.
    + vm_compute. reflexivity.
    + left. lia.
Defined.

(** C7. A text with both an upper-case and a lower-case letter is rejected:
    [bech32_decode] and [decode] return [(None, None)], [validate_bech32]
    returns [False], and so does [validate] when the text carries the
    network's prefix.  And for every text of printable characters, [decode]
    gives the same result on its all-upper-case and on its all-lower-case
    form. *)
Theorem bech32_case_rule (s hrp : str) :
  ((exists c, In c s /\ is_upper c = true) ->
   (exists c, In c s /\ is_lower c = true) ->
   bech32_decode s = None
   /\ decode hrp s = Return None
   /\ validate_bech32 s hrp = Return false
   /\ (forall (py : python) (testnet : bool),
          lower (firstn 2 s) = (if testnet then lit "tb" else lit "bc") ->
          validate py s testnet = Return false))
  /\ (forallb printable s = true ->
      decode hrp (upper s) = decode hrp (lower s)).
Proof.
  split.
  - intros Hu Hl. pose proof (bech32_decode_mixed s Hu Hl) as E.
    assert (D : forall h, decode h s = Return None)
      by (intros h; unfold decode; rewrite E; reflexivity).
    assert (V : forall h, validate_bech32 s h = Return false)
      by (intros h; unfold validate_bech32; rewrite D; reflexivity).
    split; [exact E |]. split; [apply D |]. split; [apply V |].
    intros py testnet Hp. unfold validate. rewrite Hp, str_eqb_refl. apply V.
  - intros _. unfold decode. rewrite bech32_decode_case. reflexivity.
Qed.

Lemma bech32_case_rule_witness :
  validate Py3 (lit "tb1qrp33g0q5c5txsp9arysrx4k6zdkfs4nce4xj0gdcccefvpysxf3q0sL5k7") true
  = Return false
  /\ decode (lit "bc") (upper (lit "bc1sw50qa3jx3s"))
     = decode (lit "bc") (lower (lit "bc1sw50qa3jx3s")).
Proof.
  split.
  - refine (proj2 (proj2 (proj2 (proj1 (bech32_case_rule
      (lit "tb1qrp33g0q5c5txsp9arysrx4k6zdkfs4nce4xj0gdcccefvpysxf3q0sL5k7")
      (lit "tb")) _ _))) Py3 true _).
    + exists "L"%char. split; [vm_compute; tauto | reflexivity].
    + exists "t"%char. split; [left; reflexivity | reflexivity].
    + vm_compute. reflexivity.
  - apply (proj2 (bech32_case_rule (lit "bc1sw50qa3jx3s") (lit "bc"))).
    vm_compute. reflexivity.
Defined.

(** ** validate_base58 *)

Lemma length_checks (addr : str) :
  27 <= len addr <= 35 -> (len addr <? 27) || (len addr >? 35) = false.
Proof.
  intros H. apply orb_false_iff. rewrite Z.gtb_ltb. split; apply Z.ltb_ge; lia.
Qed.

(** On an interpreter where [str] is text, the magic-byte test cannot be
    evaluated: its first turn raises [TypeError]. *)
Lemma magic_loop_text (py : python) (bcbytes : bytes) (mb : Z) (rest : list Z) :
  str_is_bytes py = false -> 0 <= mb < 1114112 ->
  magic_loop py bcbytes (mb :: rest) = Raise TypeError.
Proof.
  intros Hp Hm. cbn [magic_loop]. unfold startswith_chr. rewrite Hp.
  replace ((0 <=? mb) && (mb <? 1114112)) with true; [reflexivity |].
  symmetry. apply andb_true_iff. split; [apply Z.leb_le | apply Z.ltb_lt]; lia.
Qed.

(** On an interpreter where [str] is a byte string, the test compares the
    leading byte with each magic byte in turn. *)
Lemma startswith_chr_bytes (bcbytes : bytes) (mb : Z) :
  0 <= mb < 256 ->
  startswith_chr Py2 bcbytes mb
  = Return (match bcbytes with
            | [] => false
            | b :: _ => byte_val b =? mb
            end).
Proof.
  intros Hm. unfold startswith_chr. cbn [str_is_bytes].
  replace ((0 <=? mb) && (mb <? 256)) with true
    by (symmetry; apply andb_true_iff; split;
        [apply Z.leb_le | apply Z.ltb_lt]; lia).
  f_equal. destruct bcbytes as [|b r]; cbn [firstn].
  - destruct (bytes_eqb [] [mk_byte mb]) eqn:E; [| reflexivity].
    apply bytes_eqb_eq in E. discriminate E.
  - destruct (bytes_eqb [b] [mk_byte mb]) eqn:E.
    + apply bytes_eqb_eq in E. assert (Eb : b = mk_byte mb) by congruence.
      symmetry. apply Z.eqb_eq. rewrite Eb, byte_val_mk. apply Z.mod_small. exact Hm.
    + symmetry. apply Z.eqb_neq. intros Hb.
      assert (T : bytes_eqb [b] [mk_byte mb] = true).
      { apply bytes_eqb_eq. rewrite <- Hb, mk_byte_val. reflexivity. }
      congruence.
Qed.

Lemma magic_loop_bytes (bcbytes : bytes) (m1 m2 : Z) :
  0 <= m1 < 256 -> 0 <= m2 < 256 ->
  magic_loop Py2 bcbytes [m1; m2]
  = Return (match bcbytes with
            | [] => false
            | b :: _ => (byte_val b =? m1) || (byte_val b =? m2)
            end).
Proof.
  intros H1 H2. cbn [magic_loop].
  rewrite !startswith_chr_bytes by assumption.
  destruct bcbytes as [|b r]; cbn [bind]; [reflexivity |].
  destruct (byte_val b =? m1); cbn [orb]; [reflexivity |].
  destruct (byte_val b =? m2); reflexivity.
Qed.

(** With a byte-string [str], [validate_base58] returns on every text. *)
Lemma validate_base58_returns (addr : str) (m1 m2 : Z) :
  0 <= m1 < 256 -> 0 <= m2 < 256 ->
  exists b, validate_base58 Py2 addr [m1; m2] = Return b.
Proof.
  intros H1 H2. unfold validate_base58.
  destruct ((len addr <? 27) || (len addr >? 35)); [eauto |].
  destruct (in_alphabet58_dec addr) as [Ha | Ha].
  - unfold decode_base58. rewrite (decode_loop_value 0 Ha).
    cbn [bind int_to_bytes has_int_bytes try_except exn_eqb].
    rewrite magic_loop_bytes by assumption. cbn [bind].
    match goal with |- context [negb ?c] => destruct c end; cbn [negb]; [| eauto].
    match goal with |- context [negb ?c] => destruct c end; cbn [negb]; [| eauto].
    destruct (encode_base58_decodes Py2 (_long_to_bytes (base58_value addr) 25 big))
      as [s [Hs _]].
    unfold base58_value in Hs. rewrite Hs. cbn [bind]. eauto.
  - unfold decode_base58. rewrite (decode_loop_invalid 0 Ha). cbn [bind]. eauto.
Qed.

(** ** validate *)

(** With a byte-string [str] (Python 2), [validate] returns on every text
    and for both networks. *)
Lemma validate_returns_py2 (addr : str) (testnet : bool) :
  exists b, validate Py2 addr testnet = Return b.
Proof.
  unfold validate.
  destruct (str_eqb (lower (firstn 2 addr)) (if testnet then lit "tb" else lit "bc")).
  - unfold validate_bech32.
    destruct (decode_returns (if testnet then lit "tb" else lit "bc") addr) as [r Hr].
    rewrite Hr. cbn [bind]. eauto.
  - destruct testnet; apply validate_base58_returns; lia.
Qed.

(** A text that passes the length and alphabet checks and denotes a number
    of at most 25 bytes reaches the magic-byte test. *)
Lemma validate_base58_text (py : python) (addr : str) (mb : Z) (rest : list Z) :
  str_is_bytes py = false -> 0 <= mb < 1114112 ->
  27 <= len addr <= 35 -> in_alphabet58 addr -> base58_value addr < 256 ^ 25 ->
  validate_base58 py addr (mb :: rest) = Raise TypeError.
Proof.
  intros Hp Hm Hl Ha Hv. unfold validate_base58.
  rewrite (@length_checks addr Hl).
  rewrite (@decode_base58_fits py addr 25 Ha) by (try exact Hv; lia).
  rewrite (@magic_loop_text py _ mb rest Hp Hm). reflexivity.
Qed.

(** Where [str] is text and [int.to_bytes] exists, a text on the base58
    path that passes the length and alphabet checks makes [validate] raise. *)
Lemma validate_text_raises (addr : str) (testnet : bool) :
  lower (firstn 2 addr) <> (if testnet then lit "tb" else lit "bc") ->
  27 <= len addr <= 35 -> in_alphabet58 addr ->
  validate Py3 addr testnet
  = if 256 ^ 25 <=? base58_value addr
    then Raise OverflowError else Raise TypeError.
Proof.
  intros Hp Hl Ha. unfold validate.
  destruct (str_eqb (lower (firstn 2 addr)) (if testnet then lit "tb" else lit "bc"))
    eqn:E; [apply str_eqb_eq in E; contradiction |].
  destruct (256 ^ 25 <=? base58_value addr) eqn:Ev.
  - apply Z.leb_le in Ev. unfold validate_base58.
    rewrite (@length_checks addr Hl).
    rewrite (@decode_base58_wide Py3 addr 25 Ha) by (try exact Ev; lia).
    reflexivity.
  - apply Z.leb_gt in Ev.
    destruct testnet; apply validate_base58_text;
      try assumption; try reflexivity; lia.
Qed.

(** ** validate: the claims *)

(** C1. [validate] does propagate exceptions.  Where [str] is text and
    [int.to_bytes] exists (Python 3), a text that goes down the
    base58 path, has between 27 and 35 characters and is over the alphabet
    makes [validate] raise: [OverflowError] from [decode_base58] when its
    number needs more than 25 bytes (only [ValueError] is caught), and
    [TypeError] from the magic-byte test otherwise. *)
Theorem validate_raises (addr : str) (testnet : bool) :
  lower (firstn 2 addr) <> (if testnet then lit "tb" else lit "bc") ->
  27 <= len addr <= 35 -> in_alphabet58 addr ->
  validate Py3 addr testnet
  = if 256 ^ 25 <=? base58_value addr
    then Raise OverflowError else Raise TypeError.
Proof.
  apply validate_text_raises.
Qed.

Lemma validate_raises_witness :
  validate Py3 z35 false = Raise OverflowError
  /\ validate Py3 (lit "1AGNa15ZQXAZUgFiqJ2i7Z2DPU2J6hW62i") true = Raise TypeError.
Proof.
  split.
  - apply (@validate_raises z35 false);
      [vm_compute; discriminate | vm_compute; split; discriminate
      | apply z35_alphabet].
  - apply (@validate_raises (lit "1AGNa15ZQXAZUgFiqJ2i7Z2DPU2J6hW62i") true);
      [vm_compute; discriminate | vm_compute; split; discriminate
      | apply alphabet_check; vm_compute; reflexivity].
Defined.

(** C4. On the address of the module's doctest and with the default
    network, [validate] returns [True] where [str] is a byte string
    (Python 2) and raises [TypeError] where it is text (Python 3): the
    magic-byte test hands a text prefix to [startswith] of a byte string. *)
Theorem validate_doctest :
  validate Py2 (lit "1AGNa15ZQXAZUgFiqJ2i7Z2DPU2J6hW62i") false = Return true
  /\ validate Py31 (lit "1AGNa15ZQXAZUgFiqJ2i7Z2DPU2J6hW62i") false = Raise TypeError
  /\ validate Py3 (lit "1AGNa15ZQXAZUgFiqJ2i7Z2DPU2J6hW62i") false = Raise TypeError.
Proof. repeat split; vm_compute; reflexivity. Qed.

(** C5. Where [str] is a byte string (Python 2): a text on the base58 path
    whose 25 decoded bytes start with a byte that is not one of the
    network's two magic bytes makes [validate] return [False], whatever its
    checksum.  Where [str] is text (Python 3) the same text makes [validate]
    raise [TypeError] instead. *)
Theorem magic_byte_gating (addr : str) (testnet : bool) (b : byte) (r : bytes) :
  lower (firstn 2 addr) <> (if testnet then lit "tb" else lit "bc") ->
  27 <= len addr <= 35 ->
  decode_base58 Py2 addr 25 = Return (b :: r) ->
  ~ In (byte_val b) (if testnet then [111; 196] else [0; 5]) ->
  validate Py2 addr testnet = Return false
  /\ exists e, validate Py3 addr testnet = Raise e.
Proof.
  intros Hp Hl Hd Hm. unfold validate.
  destruct (str_eqb (lower (firstn 2 addr)) (if testnet then lit "tb" else lit "bc"))
    eqn:E; [apply str_eqb_eq in E; contradiction |].
  split.
  - unfold validate_base58. rewrite (@length_checks addr Hl), Hd.
    assert (G : magic_loop Py2 (b :: r) (if testnet then [111; 196] else [0; 5])
                = Return false).
    { destruct testnet; rewrite magic_loop_bytes by lia; f_equal;
        apply orb_false_iff; split; apply Z.eqb_neq; intros Hb;
        apply Hm; rewrite Hb; cbn [In]; auto. }
    rewrite G. reflexivity.
  - pose proof (@decode_base58_alphabet Py2 addr 25 _ Hd) as Ha.
    pose proof (@validate_text_raises addr testnet Hp Hl Ha) as R.
    unfold validate in R. rewrite E in R. rewrite R.
    destruct (256 ^ 25 <=? base58_value addr); eauto.
Qed.

Lemma magic_byte_gating_witness :
  validate Py2 (lit "mpc1rKeaMSCuQnJevMViLuq8uWjHwgdjiV") false = Return false
  /\ exists e, validate Py3 (lit "mpc1rKeaMSCuQnJevMViLuq8uWjHwgdjiV") false = Raise e.
Proof.
  apply (@magic_byte_gating (lit "mpc1rKeaMSCuQnJevMViLuq8uWjHwgdjiV") false
           x6f (tl (low_order_bytes 25
                      (base58_value (lit "mpc1rKeaMSCuQnJevMViLuq8uWjHwgdjiV"))))).
  - vm_compute. discriminate.
  - vm_compute. split; discriminate.
  - vm_compute. reflexivity.
  - vm_compute. intros [H | [H | H]]; [discriminate H | discriminate H | exact H].
Defined.

(** * Further properties *)

(** ** Numbers and byte strings *)

Lemma low_order_bytes_length (k : nat) (n : Z) :
  List.length (low_order_bytes k n) = k.
Proof.
  revert n. induction k as [|k IH]; intros n; cbn [low_order_bytes].
  - reflexivity.
  - rewrite length_app, IH. cbn [List.length]. lia.
Qed.

Lemma low_order_bytes_mod (k : nat) (n : Z) :
  bytes_value (low_order_bytes k n) = n mod 256 ^ Z.of_nat k.
Proof.
  revert n. induction k as [|k IH]; intros n; cbn [low_order_bytes].
  - change (256 ^ Z.of_nat 0) with 1. rewrite Z.mod_1_r. reflexivity.
  - unfold bytes_value in *. rewrite map_app. cbn [map].
    rewrite be_value_snoc, IH, byte_val_mk, Z.mod_mod by lia.
    rewrite Nat2Z.inj_succ, Z.pow_succ_r by lia.
    rewrite Z.rem_mul_r by (try apply Z.pow_pos_nonneg; lia). lia.
Qed.

Lemma bytes_to_long_little_rev (b : bytes) :
  _bytes_to_long (rev b) little = bytes_value b.
Proof.
  unfold _bytes_to_long, bytes_value. rewrite map_rev. apply sum_shifted_rev.
Qed.

Lemma long_to_bytes_little (n length : Z) :
  _long_to_bytes n length little = rev (_long_to_bytes n length big).
Proof.
  unfold _long_to_bytes. rewrite <- map_rev, rev_involutive. reflexivity.
Qed.

(** X1. [_long_to_bytes] then [_bytes_to_long], in either byte order, gives
    the number back modulo [256 ^ length]: the conversion keeps exactly the
    [length] low-order bytes, of negative numbers too. *)
Theorem long_bytes_roundtrip (n length : Z) :
  0 <= length ->
  _bytes_to_long (_long_to_bytes n length big) big = n mod 256 ^ length
  /\ _bytes_to_long (_long_to_bytes n length little) little = n mod 256 ^ length.
Proof.
  intros Hl. rewrite long_to_bytes_little, bytes_to_long_little_rev.
  rewrite bytes_to_long_big.
  rewrite <- (Z2Nat.id length Hl) at 1 3.
  rewrite long_to_bytes_low_order, low_order_bytes_mod.
  rewrite Z2Nat.id by exact Hl. split; reflexivity.
Qed.

Lemma long_bytes_roundtrip_witness :
  _bytes_to_long (_long_to_bytes (-2) 3 big) big = (-2) mod 256 ^ 3
  /\ _bytes_to_long (_long_to_bytes (-2) 3 little) little = (-2) mod 256 ^ 3.
Proof.
  apply (@long_bytes_roundtrip (-2) 3). lia.
Defined.

(** X2. [_bytes_to_long] then [_long_to_bytes] at the string's own length
    gives the byte string back, in either byte order. *)
Theorem bytes_long_roundtrip (b : bytes) :
  _long_to_bytes (_bytes_to_long b big) (len b) big = b
  /\ _long_to_bytes (_bytes_to_long b little) (len b) little = b.
Proof.
  split.
  - rewrite bytes_to_long_big. unfold len.
    rewrite long_to_bytes_low_order. apply low_order_bytes_value.
  - rewrite long_to_bytes_little.
    rewrite <- (rev_involutive b) at 1. rewrite bytes_to_long_little_rev.
    unfold len. rewrite <- (length_rev b).
    rewrite long_to_bytes_low_order, low_order_bytes_value.
    apply rev_involutive.
Qed.

(** ** Base58 on every interpreter *)

(** X3. [encode_base58] gives the same text whether the number is read by
    [int.from_bytes] or, where that does not exist, by [_bytes_to_long]. *)
Theorem encode_base58_same_everywhere (py py' : python) (b : bytes) :
  encode_base58 py b = encode_base58 py' b.
Proof.
  unfold encode_base58. rewrite !from_bytes_value. reflexivity.
Qed.

(** X4. When the number a text denotes fits in [length] bytes,
    [decode_base58] gives the same bytes whether they are written by
    [int.to_bytes] or by [_long_to_bytes]; they are [length] bytes that
    denote the number. *)
Theorem decode_base58_same_everywhere (py py' : python) (text : str) (length : Z) :
  in_alphabet58 text -> 0 <= length -> base58_value text < 256 ^ length ->
  decode_base58 py text length = decode_base58 py' text length
  /\ exists b, decode_base58 py text length = Return b
               /\ len b = length /\ bytes_value b = base58_value text.
Proof.
  intros Ha Hl Hv.
  rewrite (@decode_base58_fits py text length Ha Hl Hv).
  rewrite (@decode_base58_fits py' text length Ha Hl Hv).
  split; [reflexivity |]. eexists. split; [reflexivity |]. split.
  - unfold len. rewrite low_order_bytes_length. lia.
  - rewrite low_order_bytes_mod, Z2Nat.id by exact Hl.
    apply Z.mod_small. split; [apply base58_value_nonneg; exact Ha | exact Hv].
Qed.

Lemma decode_base58_same_everywhere_witness :
  decode_base58 Py2 (lit "14oLvT2") 5 = decode_base58 Py3 (lit "14oLvT2") 5
  /\ exists b, decode_base58 Py2 (lit "14oLvT2") 5 = Return b
               /\ len b = 5 /\ bytes_value b = base58_value (lit "14oLvT2").
Proof.
  apply (@decode_base58_same_everywhere Py2 Py3 (lit "14oLvT2") 5).
  - apply alphabet_check. vm_compute. reflexivity.
  - lia.
  - vm_compute. reflexivity.
Defined.

(** X5. With a non-negative width, [decode_base58] raises [ValueError]
    exactly on the texts that have a character outside the alphabet. *)
Theorem decode_base58_value_error (py : python) (text : str) (length : Z) :
  0 <= length ->
  (decode_base58 py text length = Raise ValueError <-> ~ in_alphabet58 text).
Proof.
  intros Hl. split.
  - intros H Ha.
    destruct (Z_lt_le_dec (base58_value text) (256 ^ length)) as [Hv | Hv].
    + rewrite (@decode_base58_fits py text length Ha Hl Hv) in H. discriminate H.
    + rewrite (@decode_base58_wide py text length Ha Hl Hv) in H.
      destruct (has_int_bytes py); discriminate H.
  - apply decode_base58_invalid.
Qed.

Lemma decode_base58_value_error_witness :
  decode_base58 Py3 (lit "1C9wCniTU7PP7NLhFFHhMQfhmkqdY37zu?") 25 = Raise ValueError
  <-> ~ in_alphabet58 (lit "1C9wCniTU7PP7NLhFFHhMQfhmkqdY37zu?").
Proof.
  apply (@decode_base58_value_error Py3 (lit "1C9wCniTU7PP7NLhFFHhMQfhmkqdY37zu?") 25).
  lia.
Defined.

Lemma decode_base58_returned (py : python) (text : str) (length : Z) (b : bytes) :
  0 <= length -> decode_base58 py text length = Return b ->
  len b = length /\ bytes_value b = base58_value text mod 256 ^ length.
Proof.
  intros Hl H.
  pose proof (@decode_base58_alphabet py text length b H) as Ha.
  assert (E : b = low_order_bytes (Z.to_nat length) (base58_value text)).
  { destruct (Z_lt_le_dec (base58_value text) (256 ^ length)) as [Hv | Hv].
    - rewrite (@decode_base58_fits py text length Ha Hl Hv) in H. congruence.
    - rewrite (@decode_base58_wide py text length Ha Hl Hv) in H.
      destruct (has_int_bytes py); [discriminate H | congruence]. }
  subst b. split.
  - unfold len. rewrite low_order_bytes_length. lia.
  - rewrite low_order_bytes_mod, Z2Nat.id by exact Hl. reflexivity.
Qed.

(** X6. Whenever [decode_base58] returns, on any interpreter and for a
    non-negative width, it returns exactly [length] bytes, and they denote
    the text's number modulo [256 ^ length]. *)
Theorem decode_base58_result (py : python) (text : str) (length : Z) (b : bytes) :
  0 <= length -> decode_base58 py text length = Return b ->
  len b = length /\ bytes_value b = base58_value text mod 256 ^ length.
Proof.
  apply decode_base58_returned.
Qed.

Lemma decode_base58_result_witness :
  len (low_order_bytes 25 (base58_value z35)) = 25
  /\ bytes_value (low_order_bytes 25 (base58_value z35))
     = base58_value z35 mod 256 ^ 25.
Proof.
  apply (@decode_base58_result Py2 z35 25 (low_order_bytes 25 (base58_value z35))).
  - lia.
  - vm_compute. reflexivity.
Defined.

(** X7. Leading characters '1' are digits zero: they do not change what
    [decode_base58] returns.  (This is why [validate_base58] ends by
    comparing the text with the encoding of the bytes.) *)
Theorem decode_base58_leading_ones (py : python) (k : nat) (text : str) (length : Z) :
  decode_base58 py (repeat "1"%char k ++ text) length
  = decode_base58 py text length.
Proof.
  unfold decode_base58. rewrite decode_loop_ones. reflexivity.
Qed.

(** X8. On every byte string and every interpreter [encode_base58] returns
    a text; the text is over the base58 alphabet, denotes the number the
    bytes denote, and decodes at the string's length to the string. *)
Theorem encode_base58_returns (py : python) (b : bytes) :
  exists s,
    encode_base58 py b = Return s
    /\ in_alphabet58 s
    /\ base58_value s = bytes_value b
    /\ decode_base58 py s (len b) = Return b.
Proof.
  destruct (encode_then_decode py b) as [s [Hs Hd]].
  destruct (encode_base58_decodes py b) as [s' [Hs' Hv]].
  assert (s' = s) by congruence. subst s'.
  pose proof (@decode_base58_alphabet py s (len b) b Hd) as Ha.
  exists s. split; [exact Hs |]. split; [exact Ha |]. split; [| exact Hd].
  rewrite (decode_loop_value 0 Ha) in Hv. unfold base58_value. congruence.
Qed.

(** ** Base58: the encoding is canonical *)

Lemma find_one : find digits58 "1"%char = 0.
Proof. vm_compute. reflexivity. Qed.

(** The digits the loop appends end, when there are any, with a digit that
    is not zero. *)
Lemma encode_loop_canonical (fuel : nat) :
  forall (n : Z) (acc : str),
    0 <= n < 2 ^ Z.of_nat fuel ->
    exists ds,
      encode_base58_loop fuel (n / 58) (n mod 58) acc = Return (acc ++ ds)
      /\ (n = 0 -> ds = [])
      /\ (n <> 0 -> hd "1"%char (rev ds) <> "1"%char).
Proof.
  induction fuel as [|fuel IH]; intros n acc Hn.
  - assert (n = 0) by (change (2 ^ Z.of_nat 0) with 1 in Hn; lia). subst n.
    exists []. cbn. rewrite app_nil_r. split; [reflexivity |]. split; [reflexivity | lia].
  - destruct (Z.eq_dec n 0) as [-> | Hnz].
    + exists []. cbn. rewrite app_nil_r.
      split; [reflexivity |]. split; [reflexivity | lia].
    + pose proof (Z.mod_pos_bound n 58 ltac:(lia)) as Hr.
      pose proof (Z.div_mod n 58 ltac:(lia)) as Hdm.
      assert (Hq : 0 <= n / 58) by (apply Z.div_pos; lia).
      cbn [encode_base58_loop].
      destruct ((n / 58 =? 0) && (n mod 58 =? 0)) eqn:E.
      { apply andb_true_iff in E. destruct E as [E1 E2].
        apply Z.eqb_eq in E1, E2. lia. }
      destruct (digit58_index Hr) as [c [Hc [Hin Hfind]]].
      rewrite Hc. cbn [bind].
      destruct (IH (n / 58) (acc ++ [c])) as [ds [Hds [Hz Hnzq]]].
      { split; [exact Hq |].
        rewrite Nat2Z.inj_succ, Z.pow_succ_r in Hn by lia.
        apply Z.div_lt_upper_bound; lia. }
      exists (c :: ds). split; [rewrite Hds, <- app_assoc; reflexivity |].
      split; [intros; contradiction |]. intros _. cbn [rev].
      destruct (Z.eq_dec (n / 58) 0) as [Eq | Eq].
      * rewrite (Hz Eq). cbn [rev app hd]. intros ->.
        rewrite find_one in Hfind. lia.
      * specialize (Hnzq Eq). destruct (rev ds) as [|x xs]; [contradiction |].
        exact Hnzq.
Qed.

(** X9. The text [encode_base58] returns is, on every interpreter, as many
    characters '1' as the byte string has leading zero bytes, followed by
    digits that do not start with '1'. *)
Theorem encode_base58_canonical (py : python) (b : bytes) :
  exists t,
    encode_base58 py b = Return (repeat "1"%char (count_zeros b) ++ t)
    /\ hd "2"%char t <> "1"%char.
Proof.
  unfold encode_base58. rewrite from_bytes_value. cbn [bind].
  pose proof (bytes_value_bound b) as Hb.
  destruct (@encode_loop_canonical (S (Z.to_nat (Z.log2 (bytes_value b))))
              (bytes_value b) []) as [ds [Hds [Hz Hnz]]].
  { apply log2_fuel. lia. }
  rewrite Hds. cbn [bind app]. exists (rev ds). split; [reflexivity |].
  destruct (Z.eq_dec (bytes_value b) 0) as [E | E].
  - rewrite (Hz E). cbn. discriminate.
  - specialize (Hnz E). destruct (rev ds) as [|x xs]; [contradiction | exact Hnz].
Qed.

(** ** Bech32: the checksum *)

Lemma lxor_bound (a b n : Z) :
  0 <= a < 2 ^ n -> 0 <= b < 2 ^ n -> 0 <= Z.lxor a b < 2 ^ n.
Proof.
  intros Ha Hb.
  assert (Hx : 0 <= Z.lxor a b) by (apply Z.lxor_nonneg; lia).
  split; [exact Hx |].
  destruct (Z.eq_dec (Z.lxor a b) 0) as [E | E]; [lia |].
  destruct (Z_lt_le_dec n 0) as [Hn | Hn].
  { rewrite Z.pow_neg_r in Ha by exact Hn. lia. }
  apply Z.log2_lt_pow2; [lia |].
  pose proof (Z.log2_lxor a b ltac:(lia) ltac:(lia)) as L.
  assert (La : Z.log2 a < n \/ a = 0).
  { destruct (Z.eq_dec a 0); [right; assumption | left; apply Z.log2_lt_pow2; lia]. }
  assert (Lb : Z.log2 b < n \/ b = 0).
  { destruct (Z.eq_dec b 0); [right; assumption | left; apply Z.log2_lt_pow2; lia]. }
  destruct La as [La | ->], Lb as [Lb | ->].
  - lia.
  - rewrite Z.lxor_0_r in *. lia.
  - rewrite Z.lxor_0_l in *. lia.
  - rewrite Z.lxor_0_l in E. contradiction.
Qed.

Lemma generator_bound (k : nat) : 0 <= nth k generator 0 < 2 ^ 30.
Proof.
  do 5 (destruct k as [|k]; [vm_compute; split; [discriminate | reflexivity] |]).
  destruct k; vm_compute; split; try discriminate; reflexivity.
Qed.

Lemma polymod_step_bound (chk value : Z) :
  0 <= value < 2 ^ 30 -> 0 <= polymod_step chk value < 2 ^ 30.
Proof.
  intros Hv. unfold polymod_step.
  set (start := Z.lxor (Z.shiftl (Z.land chk 33554431) 5) value).
  assert (Hs : 0 <= start < 2 ^ 30).
  { apply lxor_bound; [| exact Hv].
    change 33554431 with (Z.ones 25). rewrite Z.land_ones by lia.
    rewrite Z.shiftl_mul_pow2 by lia.
    pose proof (Z.mod_pos_bound chk (2 ^ 25) ltac:(lia)).
    change (2 ^ 30) with (2 ^ 25 * 2 ^ 5). nia. }
  generalize (range 5). intros l. revert Hs. generalize start. clear start.
  induction l as [|i l IH]; intros start Hs; cbn [fold_left]; [exact Hs |].
  apply IH. apply lxor_bound; [exact Hs |].
  destruct (Z.land (Z.shiftr (Z.shiftr chk 25) i) 1 =? 0);
    [lia | apply generator_bound].
Qed.

(** X10. The checksum state never leaves 30 bits: for values below [2 ^ 30]
    (the module feeds it values below 32) [bech32_polymod] is in
    [0, 2 ^ 30). *)
Theorem bech32_polymod_bound (values : list Z) :
  Forall (fun v => 0 <= v < 2 ^ 30) values ->
  0 <= bech32_polymod values < 2 ^ 30.
Proof.
  unfold bech32_polymod. intros H.
  assert (G : forall chk, 0 <= chk < 2 ^ 30 ->
                          0 <= fold_left polymod_step values chk < 2 ^ 30).
  { induction H as [|v values Hv Hvs IH]; intros chk Hc; cbn [fold_left].
    - exact Hc.
    - apply IH. apply polymod_step_bound. exact Hv. }
  apply G. lia.
Qed.

Lemma bech32_polymod_bound_witness :
  0 <= bech32_polymod [3; 3; 0; 2; 3; 1073741823] < 2 ^ 30.
Proof.
  apply (@bech32_polymod_bound [3; 3; 0; 2; 3; 1073741823]).
  repeat constructor; lia.
Defined.

Lemma ord_range (c : ascii) : 0 <= ord c < 256.
Proof.
  unfold ord. pose proof (N_ascii_bounded c). lia.
Qed.

(** X11. [bech32_hrp_expand] gives twice the prefix's length plus one
    values, with a zero in the middle; and when every character of the
    prefix is printable ASCII (33..126, the range [bech32_decode] lets
    through) the values before the zero are 1, 2 or 3 and every value is
    below 32. *)
Theorem bech32_hrp_expand_shape (hrp : str) :
  len (bech32_hrp_expand hrp) = 2 * len hrp + 1
  /\ nth (List.length hrp) (bech32_hrp_expand hrp) 1 = 0
  /\ (forallb printable hrp = true ->
      Forall (fun v => 1 <= v <= 3) (firstn (List.length hrp) (bech32_hrp_expand hrp))
      /\ Forall (fun v => 0 <= v < 32) (bech32_hrp_expand hrp)).
Proof.
  unfold bech32_hrp_expand. split; [| split].
  - unfold len. rewrite !length_app, !length_map. cbn [List.length]. lia.
  - rewrite app_nth2 by (rewrite length_map; lia).
    rewrite length_map, Nat.sub_diag. reflexivity.
  - intros Hp. rewrite forallb_forall in Hp.
    assert (Hi : Forall (fun v => 1 <= v <= 3)
                   (map (fun x => Z.shiftr (ord x) 5) hrp)).
    { apply Forall_forall. intros v Hv. apply in_map_iff in Hv.
      destruct Hv as [c [<- Hc]]. specialize (Hp c Hc). unfold printable in Hp.
      apply andb_true_iff in Hp. destruct Hp as [P1 P2].
      apply Z.leb_le in P1, P2.
      rewrite Z.shiftr_div_pow2 by lia. change (2 ^ 5) with 32.
      split; [apply Z.div_le_lower_bound; lia | apply Z.lt_succ_r;
              apply Z.div_lt_upper_bound; lia]. }
    split.
    + rewrite firstn_app, length_map, Nat.sub_diag. cbn [firstn].
      rewrite app_nil_r, <- (length_map (fun x => Z.shiftr (ord x) 5) hrp), firstn_all.
      exact Hi.
    + apply Forall_app. split; [| apply Forall_app; split].
      * eapply Forall_impl; [| exact Hi]. cbv beta. intros v Hv. lia.
      * repeat constructor; lia.
      * apply Forall_forall. intros v Hv. apply in_map_iff in Hv.
        destruct Hv as [c [<- _]]. change 31 with (Z.ones 5).
        rewrite Z.land_ones by lia. apply Z.mod_pos_bound. lia.
Qed.

Lemma bech32_hrp_expand_shape_witness :
  Forall (fun v => 1 <= v <= 3)
    (firstn (List.length (lit "bc")) (bech32_hrp_expand (lit "bc")))
  /\ Forall (fun v => 0 <= v < 32) (bech32_hrp_expand (lit "bc")).
Proof.
  apply (proj2 (proj2 (bech32_hrp_expand_shape (lit "bc")))).
  vm_compute. reflexivity.
Defined.

(** ** Bech32: parsing *)

Lemma len_map {A B : Type} (f : A -> B) (l : list A) : len (map f l) = len l.
Proof. unfold len. rewrite length_map. reflexivity. Qed.

Lemma len_take {A : Type} (i : Z) (l : list A) :
  0 <= i <= len l -> len (take i l) = i.
Proof.
  unfold len, take. intros H. rewrite length_firstn. lia.
Qed.

Lemma len_drop {A : Type} (i : Z) (l : list A) :
  0 <= i <= len l -> len (drop i l) = len l - i.
Proof.
  unfold len, drop. intros H. rewrite length_skipn. lia.
Qed.

Lemma len_drop_last {A : Type} (k : nat) (l : list A) :
  Z.of_nat k <= len l -> len (drop_last k l) = len l - Z.of_nat k.
Proof.
  unfold len, drop_last. intros H. rewrite length_firstn. lia.
Qed.

Lemma Forall_firstn_keeps {A : Type} (P : A -> Prop) (n : nat) (l : list A) :
  Forall P l -> Forall P (firstn n l).
Proof.
  intros H. revert n. induction H as [|x l Hx Hl IH]; intros [|n]; cbn [firstn];
    constructor; auto.
Qed.

Lemma Forall_skipn_keeps {A : Type} (P : A -> Prop) (n : nat) (l : list A) :
  Forall P l -> Forall P (skipn n l).
Proof.
  intros H. revert n. induction H as [|x l Hx Hl IH]; intros [|n]; cbn [skipn];
    try constructor; auto.
Qed.

Lemma charset_values (s : str) :
  forallb (contains CHARSET) s = true ->
  Forall (fun d => 0 <= d < 32) (map (find CHARSET) s).
Proof.
  intros H. rewrite forallb_forall in H.
  apply Forall_forall. intros d Hd. apply in_map_iff in Hd.
  destruct Hd as [c [<- Hc]]. apply H, contains_In in Hc.
  pose proof (find_bounds CHARSET c) as B. apply find_In in Hc.
  change (len CHARSET) with 32 in B. lia.
Qed.

Lemma bech32_decode_parts (addr hrp : str) (data : list Z) :
  bech32_decode addr = Some (hrp, data) ->
  len addr <= 90
  /\ 1 <= len hrp
  /\ lower hrp = hrp
  /\ len hrp + 1 + len data + 6 = len addr
  /\ Forall (fun d => 0 <= d < 32) data
  /\ exists check,
       len check = 6 /\ bech32_verify_checksum hrp (data ++ check) = true.
Proof.
  intros H. apply bech32_decode_Some in H.
  destruct H as [_ [H1 [H2 [H3 [H4 [Hh [Hc Hd]]]]]]].
  set (bech := lower addr) in *. set (pos := rfind bech "1"%char) in *.
  set (symbols := map (find CHARSET) (drop (pos + 1) bech)) in *.
  assert (Hb : len bech = len addr) by (unfold bech, lower; apply len_map).
  assert (Hlh : len hrp = pos) by (rewrite Hh; apply len_take; lia).
  assert (Hs : len symbols = len bech - (pos + 1))
    by (unfold symbols; rewrite len_map, len_drop; lia).
  split; [lia |]. split; [lia |]. split; [| split; [| split]].
  - rewrite Hh. unfold take, bech, lower.
    rewrite <- firstn_map. f_equal. apply lower_idem.
  - rewrite Hd, len_drop_last; lia.
  - rewrite Hd. unfold drop_last. apply Forall_firstn_keeps.
    apply charset_values. exact H4.
  - exists (take_last 6 symbols). split.
    + unfold take_last, len in *. rewrite length_skipn. lia.
    + rewrite Hd. unfold drop_last, take_last. rewrite firstn_skipn. exact Hc.
Qed.

(** X12. What a successful [bech32_decode] guarantees: the text has at most
    90 characters; the prefix is not empty and is in lower case; prefix,
    separator, data and the six checksum symbols make up the whole text;
    every data value is in [0, 32); and the data followed by six more
    symbols pass [bech32_verify_checksum]. *)
Theorem bech32_decode_shape (addr hrp : str) (data : list Z) :
  bech32_decode addr = Some (hrp, data) ->
  len addr <= 90
  /\ 1 <= len hrp
  /\ lower hrp = hrp
  /\ len hrp + 1 + len data + 6 = len addr
  /\ Forall (fun d => 0 <= d < 32) data
  /\ exists check,
       len check = 6 /\ bech32_verify_checksum hrp (data ++ check) = true.
Proof.
  apply bech32_decode_parts.
Qed.

Lemma bech32_decode_shape_witness :
  len (lit "BC1SW50QA3JX3S") <= 90
  /\ 1 <= len (lit "bc")
  /\ lower (lit "bc") = lit "bc"
  /\ len (lit "bc") + 1 + len [16; 14; 20; 15; 0] + 6 = len (lit "BC1SW50QA3JX3S")
  /\ Forall (fun d => 0 <= d < 32) [16; 14; 20; 15; 0]
  /\ exists check,
       len check = 6
       /\ bech32_verify_checksum (lit "bc") ([16; 14; 20; 15; 0] ++ check) = true.
Proof.
  apply (@bech32_decode_shape (lit "BC1SW50QA3JX3S") (lit "bc") [16; 14; 20; 15; 0]).
  vm_compute. reflexivity.
Defined.

(** ** Regrouping: shape of the result and bad widths *)

Lemma len_range (n : Z) : 0 <= n -> len (range n) = n.
Proof.
  intros H. unfold len, range. rewrite length_map, length_seq. lia.
Qed.

Lemma regrouped_range (frombits tobits : Z) (data : list Z) :
  0 < tobits ->
  Forall (fun x => 0 <= x < 2 ^ tobits) (regrouped frombits tobits data).
Proof.
  intros Ht. apply Forall_forall. intros x Hx. unfold regrouped in Hx.
  apply in_map_iff in Hx. destruct Hx as [j [<- _]]. unfold group.
  apply Z.mod_pos_bound. apply Z.pow_pos_nonneg; lia.
Qed.

Lemma padded_group_range (frombits tobits : Z) (data : list Z) :
  0 < tobits -> 0 <= padded_group frombits tobits data < 2 ^ tobits.
Proof.
  intros Ht. unfold padded_group.
  set (L := leftover_bits frombits tobits data).
  assert (HL : 0 <= L < tobits) by (apply (@leftover_range frombits tobits Ht)).
  assert (H1 : 0 < 2 ^ L) by (apply Z.pow_pos_nonneg; lia).
  assert (H2 : 0 < 2 ^ (tobits - L)) by (apply Z.pow_pos_nonneg; lia).
  pose proof (Z.mod_pos_bound (bitstream frombits data) (2 ^ L) H1) as B.
  replace (2 ^ tobits) with (2 ^ L * 2 ^ (tobits - L))
    by (rewrite <- Z.pow_add_r by lia; f_equal; lia).
  nia.
Qed.

Lemma convertbits_shape (data : list Z) (frombits tobits : Z)
  (pad : bool) (out : list Z) :
  0 <= frombits -> 0 < tobits ->
  convertbits data frombits tobits pad = Return (Some out) ->
  Forall (fun x => 0 <= x < 2 ^ tobits) out
  /\ len out = frombits * len data / tobits
               + (if pad && negb ((frombits * len data) mod tobits =? 0)
                  then 1 else 0).
Proof.
  intros Hf Ht H. rewrite (@convertbits_refines frombits tobits Hf Ht) in H.
  assert (E : convertbits_spec data frombits tobits pad = Some out) by congruence.
  clear H. unfold convertbits_spec in E.
  pose proof (regrouped_range frombits data Ht) as R.
  pose proof (padded_group_range frombits data Ht) as P.
  assert (Hq : 0 <= frombits * len data / tobits)
    by (apply Z.div_pos; [pose proof (len_nonneg data); nia | lia]).
  assert (Hn : len (regrouped frombits tobits data) = frombits * len data / tobits)
    by (unfold regrouped; rewrite len_map; apply len_range; exact Hq).
  fold (leftover_bits frombits tobits data).
  destruct (forallb (fits frombits) data); [| discriminate E].
  destruct pad; cbn [andb].
  - destruct (leftover_bits frombits tobits data =? 0); cbn [negb].
    + assert (out = regrouped frombits tobits data ++ []) by congruence.
      subst out. rewrite app_nil_r. split; [exact R | lia].
    + assert (out = regrouped frombits tobits data
                      ++ [padded_group frombits tobits data]) by congruence.
      subst out.
      split; [apply Forall_app; split; [exact R | repeat constructor; lia] |].
      rewrite len_app, Hn. reflexivity.
  - destruct ((leftover_bits frombits tobits data >=? frombits)
              || negb (padded_group frombits tobits data =? 0)); [discriminate E |].
    assert (out = regrouped frombits tobits data) by congruence. subst out.
    split; [exact R | lia].
Qed.

(** X13. With a non-negative source width and a positive target width,
    whatever [convertbits] returns is a list of values that fit in [tobits]
    bits, one per full group of the input's bits, plus one when padding is
    asked for and bits are left over. *)
Theorem convertbits_result_shape (data : list Z) (frombits tobits : Z)
  (pad : bool) (out : list Z) :
  0 <= frombits -> 0 < tobits ->
  convertbits data frombits tobits pad = Return (Some out) ->
  Forall (fun x => 0 <= x < 2 ^ tobits) out
  /\ len out = frombits * len data / tobits
               + (if pad && negb ((frombits * len data) mod tobits =? 0)
                  then 1 else 0).
Proof.
  apply convertbits_shape.
Qed.

Lemma convertbits_result_shape_witness :
  Forall (fun x => 0 <= x < 2 ^ 5) [31; 28; 0; 16; 2]
  /\ len [31; 28; 0; 16; 2] = 8 * len [255; 1; 1] / 5
               + (if true && negb ((8 * len [255; 1; 1]) mod 5 =? 0)
                  then 1 else 0).
Proof.
  apply (@convertbits_result_shape [255; 1; 1] 8 5 true [31; 28; 0; 16; 2]);
    [lia | lia | vm_compute; reflexivity].
Defined.

(** X14. With a negative width [convertbits] regroups nothing.  A negative
    target width raises [ValueError] at once, from [1 << tobits].  With a
    negative source width and a target width that is not negative:
    [ValueError] at once, from [1 << (frombits + tobits - 1)], when that
    count is negative; otherwise empty data gives the empty list with
    padding and [None] without, a first value that is negative gives
    [None], and any other first value raises [ValueError], from
    [value >> frombits]. *)
Theorem convertbits_negative_width (data : list Z) (frombits tobits : Z)
  (pad : bool) :
  (tobits < 0 -> convertbits data frombits tobits pad = Raise ValueError)
  /\ (frombits < 0 -> 0 <= tobits ->
      convertbits data frombits tobits pad
      = if frombits + tobits - 1 <? 0 then Raise ValueError
        else match data with
             | [] => Return (if pad then Some [] else None)
             | v :: _ => if v <? 0 then Return None else Raise ValueError
             end).
Proof.
  split.
  - intros Ht. unfold convertbits, lshift.
    replace (tobits <? 0) with true by (symmetry; apply Z.ltb_lt; lia).
    reflexivity.
  - intros Hf Ht. unfold convertbits, lshift.
    replace (tobits <? 0) with false by (symmetry; apply Z.ltb_ge; lia).
    cbn [bind].
    destruct (frombits + tobits - 1 <? 0); [reflexivity |].
    cbn [bind]. destruct data as [|v rest]; cbn [convertbits_loop bind].
    + destruct pad.
      * change (negb (0 =? 0)) with false. cbn iota. reflexivity.
      * replace (0 >=? frombits) with true
          by (symmetry; apply Z.geb_le; lia).
        reflexivity.
    + destruct (v <? 0); [reflexivity |]. unfold rshift.
      replace (frombits <? 0) with true by (symmetry; apply Z.ltb_lt; lia).
      reflexivity.
Qed.

Lemma convertbits_negative_width_witness :
  convertbits [1; 2] 5 (-8) true = Raise ValueError
  /\ convertbits [7; 2] (-5) 8 true = Raise ValueError
  /\ convertbits [-1; 7] (-5) 8 true = Return None
  /\ convertbits [] (-5) 8 true = Return (Some [])
  /\ convertbits [] (-5) 8 false = Return None
  /\ convertbits [7; 2] (-5) 2 true = Raise ValueError.
Proof.
  split; [| split; [| split; [| split; [| split]]]].
  - apply (proj1 (convertbits_negative_width [1; 2] 5 (-8) true)). lia.
  - apply (proj2 (convertbits_negative_width [7; 2] (-5) 8 true)); lia.
  - apply (proj2 (convertbits_negative_width [-1; 7] (-5) 8 true)); lia.
  - apply (proj2 (convertbits_negative_width [] (-5) 8 true)); lia.
  - apply (proj2 (convertbits_negative_width [] (-5) 8 false)); lia.
  - apply (proj2 (convertbits_negative_width [7; 2] (-5) 2 true)); lia.
Defined.

Lemma drain_zero_width (fuel : nat) :
  forall (acc bits maxv : Z) (ret : list Z),
    0 <= bits -> drain fuel acc bits 0 maxv ret = Diverge.
Proof.
  induction fuel as [|fuel IH]; intros acc bits maxv ret Hb; cbn [drain];
    replace (bits >=? 0) with true by (symmetry; apply Z.geb_le; lia).
  - reflexivity.
  - unfold rshift.
    replace (bits - 0 <? 0) with false by (symmetry; apply Z.ltb_ge; lia).
    cbn [bind]. apply IH. lia.
Qed.

(** X15. With a target width of zero the inner loop of [convertbits] never
    ends: whatever the number of turns allowed it is still running, and so
    [convertbits] does not return on an input whose first value fits. *)
Theorem convertbits_zero_width (data : list Z) (frombits v : Z) (pad : bool) :
  1 <= frombits -> 0 <= v < 2 ^ frombits ->
  (forall (fuel : nat) (acc bits maxv : Z) (ret : list Z),
      0 <= bits -> drain fuel acc bits 0 maxv ret = Diverge)
  /\ convertbits (v :: data) frombits 0 pad = Diverge.
Proof.
  intros Hf Hv. split; [intros; apply drain_zero_width; assumption |].
  unfold convertbits, lshift. cbn [Z.ltb Z.compare bind].
  replace (frombits + 0 - 1 <? 0) with false by (symmetry; apply Z.ltb_ge; lia).
  cbn [bind convertbits_loop].
  pose proof (@fits_test frombits v ltac:(lia)) as T.
  replace (fits frombits v) with true in T by (symmetry; apply fits_spec; exact Hv).
  cbn [negb] in T. apply orb_false_iff in T. destruct T as [T1 T2].
  rewrite T1. unfold rshift at 1.
  replace (frombits <? 0) with false in * by (symmetry; apply Z.ltb_ge; lia).
  cbn [bind]. rewrite T2. unfold lshift.
  replace (frombits <? 0) with false by (symmetry; apply Z.ltb_ge; lia).
  cbn [bind]. rewrite drain_zero_width by lia. reflexivity.
Qed.

Lemma convertbits_zero_width_witness :
  (forall (fuel : nat) (acc bits maxv : Z) (ret : list Z),
      0 <= bits -> drain fuel acc bits 0 maxv ret = Diverge)
  /\ convertbits [3; 1] 5 0 true = Diverge.
Proof.
  apply (@convertbits_zero_width [1] 5 3 true); lia.
Defined.

Lemma convertbits_strict_leftover (data : list Z) (frombits tobits : Z)
  (out : list Z) :
  0 <= frombits -> 0 < tobits ->
  convertbits data frombits tobits false = Return (Some out) ->
  (frombits * len data) mod tobits < frombits.
Proof.
  intros Hf Ht H. rewrite (@convertbits_refines frombits tobits Hf Ht) in H.
  assert (E : convertbits_spec data frombits tobits false = Some out) by congruence.
  unfold convertbits_spec in E.
  destruct (forallb (fits frombits) data); [| discriminate E].
  destruct (leftover_bits frombits tobits data >=? frombits) eqn:G;
    [discriminate E |].
  rewrite Z.geb_leb in G. apply Z.leb_gt in G. exact G.
Qed.

Lemma decode_accepted (hrp addr : str) (v : Z) (prog : list Z) :
  decode hrp addr = Return (Some (v, prog)) ->
  0 <= v <= 16
  /\ Forall (fun x => 0 <= x < 256) prog
  /\ lower (firstn (List.length hrp) addr) = hrp
  /\ exists rest,
       bech32_decode addr = Some (hrp, v :: rest)
       /\ len prog = 5 * len rest / 8
       /\ (5 * len rest) mod 8 < 5
       /\ len addr = len hrp + 8 + len rest.
Proof.
  intros H. pose proof (@decode_Some hrp addr v prog H) as I.
  destruct I as [rest [Hd [Hc [Hv _]]]].
  pose proof (@bech32_decode_parts addr hrp (v :: rest) Hd) as S.
  destruct S as [_ [_ [_ [Hlen [Hdata _]]]]].
  pose proof (@convertbits_shape rest 5 8 false prog
                ltac:(lia) ltac:(lia) Hc) as [Hp Hn].
  pose proof (@convertbits_strict_leftover rest 5 8 prog
                ltac:(lia) ltac:(lia) Hc) as Hlo.
  cbn [andb] in Hn. rewrite len_cons in Hlen.
  assert (H0 : 0 <= v < 32) by (apply (Forall_inv Hdata)).
  split; [lia |]. split; [exact Hp |]. split.
  - pose proof (@bech32_decode_Some addr hrp (v :: rest) Hd) as I.
    destruct I as [_ [H1 [H2 [_ [_ [Hh _]]]]]].
    assert (Hb : len (lower addr) = len addr) by (unfold lower; apply len_map).
    assert (Hl : List.length hrp = Z.to_nat (rfind (lower addr) "1"%char)).
    { rewrite Hh at 1. unfold take. rewrite length_firstn. unfold len in *. lia. }
    rewrite Hl. unfold lower at 1. rewrite <- firstn_map. symmetry. exact Hh.
  - exists rest. split; [exact Hd |]. split; [lia |]. split; [exact Hlo | lia].
Qed.

(** X16. A segwit address that [decode] accepts carries the expected
    prefix, a version between 0 and 16 and a program of bytes: each value
    of the program is in [0, 256), the program has one byte for every full
    eight bits of the data symbols after the version, and fewer than five
    bits are left over. *)
Theorem decode_program (hrp addr : str) (v : Z) (prog : list Z) :
  decode hrp addr = Return (Some (v, prog)) ->
  0 <= v <= 16
  /\ Forall (fun x => 0 <= x < 256) prog
  /\ lower (firstn (List.length hrp) addr) = hrp
  /\ exists rest,
       bech32_decode addr = Some (hrp, v :: rest)
       /\ len prog = 5 * len rest / 8
       /\ (5 * len rest) mod 8 < 5
       /\ len addr = len hrp + 8 + len rest.
Proof.
  apply decode_accepted.
Qed.

Lemma decode_program_witness :
  0 <= 16 <= 16
  /\ Forall (fun x => 0 <= x < 256) [117; 30]
  /\ lower (firstn (List.length (lit "bc")) (lit "BC1SW50QA3JX3S")) = lit "bc"
  /\ exists rest,
       bech32_decode (lit "BC1SW50QA3JX3S") = Some (lit "bc", 16 :: rest)
       /\ len [117; 30] = 5 * len rest / 8
       /\ (5 * len rest) mod 8 < 5
       /\ len (lit "BC1SW50QA3JX3S") = len (lit "bc") + 8 + len rest.
Proof.
  apply (@decode_program (lit "bc") (lit "BC1SW50QA3JX3S") 16 [117; 30]).
  vm_compute. reflexivity.
Defined.

(** ** Regrouping there and back *)

Lemma bitstream_bound (w : Z) (data : list Z) :
  0 <= w -> Forall (fun v => 0 <= v < 2 ^ w) data ->
  0 <= bitstream w data < 2 ^ (w * len data).
Proof.
  intros Hw H. induction data as [|v p IH] using rev_ind.
  - change (len (@nil Z)) with 0. rewrite Z.mul_0_r.
    unfold bitstream. cbn [fold_left]. change (2 ^ 0) with 1. lia.
  - apply Forall_app in H. destruct H as [Hp Hv]. apply Forall_inv in Hv.
    specialize (IH Hp). rewrite bitstream_snoc, len_app. change (len [v]) with 1.
    replace (w * (len p + 1)) with (w * len p + w) by lia.
    rewrite Z.pow_add_r by (pose proof (len_nonneg p); nia).
    assert (0 < 2 ^ w) by (apply Z.pow_pos_nonneg; lia). nia.
Qed.

(** The [q] windows of [t] bits that end [e] bits from the bottom of [N],
    read as one number. *)
Lemma windows_value (t N : Z) (q : nat) :
  0 < t ->
  forall e : Z,
    0 <= e ->
    bitstream t (map (fun j => (N / 2 ^ (e + (Z.of_nat q - 1 - j) * t)) mod 2 ^ t)
                     (range (Z.of_nat q)))
    = (N / 2 ^ e) mod 2 ^ (Z.of_nat q * t).
Proof.
  intros Ht. induction q as [|q IH]; intros e He.
  - change (range (Z.of_nat 0)) with (@nil Z). change (Z.of_nat 0) with 0.
    rewrite Z.mul_0_l. change (2 ^ 0) with 1. rewrite Z.mod_1_r. reflexivity.
  - rewrite Nat2Z.inj_succ. unfold Z.succ.
    rewrite range_app by lia. rewrite range_one. rewrite map_app. cbn [map].
    rewrite bitstream_snoc.
    rewrite (map_ext_in _
               (fun j => (N / 2 ^ (e + t + (Z.of_nat q - 1 - j) * t)) mod 2 ^ t)).
    2:{ intros j _.
        replace (e + (Z.of_nat q + 1 - 1 - j) * t)
          with (e + t + (Z.of_nat q - 1 - j) * t) by lia.
        reflexivity. }
    rewrite IH by lia.
    replace (e + (Z.of_nat q + 1 - 1 - (Z.of_nat q + 0)) * t) with e by lia.
    replace ((Z.of_nat q + 1) * t) with (t + Z.of_nat q * t) by lia.
    assert (P1 : 0 < 2 ^ t) by (apply Z.pow_pos_nonneg; lia).
    assert (P2 : 0 < 2 ^ (Z.of_nat q * t)) by (apply Z.pow_pos_nonneg; nia).
    assert (P3 : 0 < 2 ^ e) by (apply Z.pow_pos_nonneg; lia).
    rewrite (Z.pow_add_r 2 t) by nia.
    rewrite Z.rem_mul_r by lia.
    rewrite (Z.pow_add_r 2 e) by lia.
    rewrite <- Z.div_div by lia. lia.
Qed.

Lemma regrouped_value (frombits tobits : Z) (data : list Z) :
  0 <= frombits -> 0 < tobits ->
  Forall (fun v => 0 <= v < 2 ^ frombits) data ->
  bitstream tobits (regrouped frombits tobits data)
  = bitstream frombits data / 2 ^ leftover_bits frombits tobits data.
Proof.
  intros Hf Ht Hd.
  pose proof (bitstream_bound Hf Hd) as B.
  pose proof (@leftover_range frombits tobits Ht data) as HL.
  pose proof (@total_bits frombits tobits Ht data) as HT.
  assert (Hq : 0 <= frombits * len data / tobits)
    by (apply Z.div_pos; [pose proof (len_nonneg data); nia | lia]).
  set (L := leftover_bits frombits tobits data) in *.
  set (q := frombits * len data / tobits) in *.
  unfold regrouped, group. fold q.
  rewrite (map_ext_in _
             (fun j => (bitstream frombits data
                        / 2 ^ (L + (Z.of_nat (Z.to_nat q) - 1 - j) * tobits))
                       mod 2 ^ tobits)).
  2:{ intros j _. rewrite Z2Nat.id by exact Hq.
      replace (frombits * len data - (j + 1) * tobits)
        with (L + (q - 1 - j) * tobits) by lia.
      reflexivity. }
  rewrite <- (Z2Nat.id q Hq) at 1.
  rewrite windows_value by lia. rewrite Z2Nat.id by exact Hq.
  assert (P1 : 0 < 2 ^ L) by (apply Z.pow_pos_nonneg; lia).
  apply Z.mod_small. split; [apply Z.div_pos; lia |].
  apply Z.div_lt_upper_bound; [lia |].
  rewrite <- Z.pow_add_r by nia.
  replace (L + q * tobits) with (frombits * len data) by lia. lia.
Qed.

(** Regrouping at the same width changes nothing. *)
Lemma regrouped_same_width (w : Z) (data : list Z) :
  0 < w -> Forall (fun v => 0 <= v < 2 ^ w) data -> regrouped w w data = data.
Proof.
  intros Hw H. induction data as [|v p IH] using rev_ind.
  - unfold regrouped. change (len (@nil Z)) with 0.
    rewrite Z.mul_0_r, Z.div_0_l by lia. reflexivity.
  - apply Forall_app in H. destruct H as [Hp Hv]. apply Forall_inv in Hv.
    specialize (IH Hp). unfold regrouped in *.
    rewrite len_app. change (len [v]) with 1.
    pose proof (len_nonneg p) as Hn.
    replace (w * (len p + 1) / w) with (len p + 1)
      by (rewrite Z.mul_comm, Z.div_mul by lia; reflexivity).
    replace (w * len p / w) with (len p) in IH
      by (rewrite Z.mul_comm, Z.div_mul by lia; reflexivity).
    rewrite range_app by lia. rewrite range_one, map_app. cbn [map].
    f_equal.
    + transitivity (map (group w w p) (range (len p))); [| exact IH].
      apply map_ext_in. intros j Hj. apply in_range in Hj.
      apply group_snoc; [lia | exact Hv | lia | nia].
    + f_equal. unfold group. rewrite bitstream_snoc, len_app.
      change (len [v]) with 1.
      replace (w * (len p + 1) - (len p + 0 + 1) * w) with 0 by lia.
      change (2 ^ 0) with 1. rewrite Z.div_1_r.
      rewrite Z.add_comm, Z.mod_add by (apply Z.pow_nonzero; lia).
      apply Z.mod_small. exact Hv.
Qed.

Section RoundTrip.

Variables frombits tobits : Z.
Hypothesis Hto : 0 < tobits.
Hypothesis Hle : tobits <= frombits.
Variable data : list Z.
Hypothesis Hdata : Forall (fun v => 0 <= v < 2 ^ frombits) data.

Let L := leftover_bits frombits tobits data.
Let padding := if L =? 0 then 0 else tobits - L.
Let mid :=
  regrouped frombits tobits data
  ++ (if L =? 0 then [] else [padded_group frombits tobits data]).

Lemma padding_range : 0 <= padding < tobits.
Proof.
  pose proof (@leftover_range frombits tobits Hto data) as HL. fold L in HL.
  unfold padding. destruct (L =? 0) eqn:E; [lia |].
  apply Z.eqb_neq in E. lia.
Qed.

Lemma mid_fits : forallb (fits tobits) mid = true.
Proof.
  apply forallb_forall. intros x Hx. apply fits_spec.
  unfold mid in Hx. apply in_app_or in Hx. destruct Hx as [Hx | Hx].
  - pose proof (regrouped_range frombits data Hto) as R.
    rewrite Forall_forall in R. apply R. exact Hx.
  - destruct (L =? 0); [destruct Hx |].
    destruct Hx as [<- | []]. apply padded_group_range. exact Hto.
Qed.

Lemma mid_length : tobits * len mid = frombits * len data + padding.
Proof.
  pose proof (@leftover_range frombits tobits Hto data) as HL.
  pose proof (@total_bits frombits tobits Hto data) as HT.
  fold L in HL, HT.
  assert (Hq : 0 <= frombits * len data / tobits)
    by (apply Z.div_pos; [pose proof (len_nonneg data); nia | lia]).
  unfold mid, padding. rewrite len_app. unfold regrouped at 1.
  rewrite len_map, len_range by exact Hq.
  destruct (L =? 0) eqn:E.
  - apply Z.eqb_eq in E. change (len (@nil Z)) with 0. lia.
  - change (len [padded_group frombits tobits data]) with 1. lia.
Qed.

Lemma mid_value :
  bitstream tobits mid = bitstream frombits data * 2 ^ padding.
Proof.
  pose proof (@leftover_range frombits tobits Hto data) as HL. fold L in HL.
  pose proof (@regrouped_value frombits tobits data ltac:(lia) Hto Hdata) as R.
  fold L in R. unfold mid, padding.
  destruct (L =? 0) eqn:E.
  - apply Z.eqb_eq in E. rewrite app_nil_r, R, E.
    change (2 ^ 0) with 1. rewrite Z.div_1_r. lia.
  - rewrite bitstream_snoc, R. unfold padded_group. fold L.
    assert (P1 : 0 < 2 ^ L) by (apply Z.pow_pos_nonneg; lia).
    replace (2 ^ tobits) with (2 ^ L * 2 ^ (tobits - L))
      by (rewrite <- Z.pow_add_r by lia; f_equal; lia).
    pose proof (Z.div_mod (bitstream frombits data) (2 ^ L) ltac:(lia)) as DM.
    nia.
Qed.

Lemma back_leftover : leftover_bits tobits frombits mid = padding.
Proof.
  pose proof padding_range as P.
  unfold leftover_bits. rewrite mid_length.
  rewrite Z.add_comm, Z.mul_comm, Z.mod_add by lia.
  apply Z.mod_small. lia.
Qed.

Lemma back_count : tobits * len mid / frombits = len data.
Proof.
  pose proof padding_range as P. rewrite mid_length.
  rewrite Z.add_comm, Z.mul_comm, Z.div_add by lia.
  rewrite Z.div_small by lia. lia.
Qed.

Lemma back_groups : regrouped tobits frombits mid = data.
Proof.
  pose proof padding_range as P. pose proof (len_nonneg data) as Hn.
  transitivity (regrouped frombits frombits data);
    [| apply regrouped_same_width; [lia | exact Hdata]].
  unfold regrouped. rewrite back_count.
  replace (frombits * len data / frombits) with (len data)
    by (rewrite Z.mul_comm, Z.div_mul by lia; reflexivity).
  apply map_ext_in. intros j Hj. apply in_range in Hj.
  unfold group. rewrite mid_length, mid_value.
  replace (frombits * len data + padding - (j + 1) * frombits)
    with (frombits * len data - (j + 1) * frombits + padding) by lia.
  rewrite Z.pow_add_r by nia.
  rewrite Z.div_mul_cancel_r by (apply Z.pow_nonzero; nia).
  reflexivity.
Qed.

Lemma back_padded : padded_group tobits frombits mid = 0.
Proof.
  pose proof padding_range as P.
  unfold padded_group. rewrite back_leftover, mid_value.
  rewrite Z.mod_mul by (apply Z.pow_nonzero; lia). reflexivity.
Qed.

Lemma convertbits_there_and_back :
  convertbits data frombits tobits true = Return (Some mid)
  /\ convertbits mid tobits frombits false = Return (Some data).
Proof.
  pose proof padding_range as P. split.
  - rewrite (@convertbits_refines frombits tobits ltac:(lia) Hto).
    unfold convertbits_spec.
    replace (forallb (fits frombits) data) with true.
    2:{ symmetry. apply forallb_forall. intros x Hx. apply fits_spec.
        rewrite Forall_forall in Hdata. apply Hdata. exact Hx. }
    reflexivity.
  - rewrite (@convertbits_refines tobits frombits ltac:(lia) ltac:(lia)).
    unfold convertbits_spec.
    rewrite mid_fits, back_leftover, back_padded, back_groups.
    replace (padding >=? tobits) with false
      by (symmetry; rewrite Z.geb_leb; apply Z.leb_gt; lia).
    reflexivity.
Qed.

End RoundTrip.

(** X17. Regrouping there and back.  When the target width is positive and
    not larger than the source width, [convertbits] with padding followed
    by [convertbits] in the other direction without padding returns the
    values it started from (as bytes regrouped into 5-bit symbols and
    back). *)
Theorem convertbits_roundtrip (data : list Z) (frombits tobits : Z) :
  0 < tobits <= frombits ->
  Forall (fun v => 0 <= v < 2 ^ frombits) data ->
  exists mid,
    convertbits data frombits tobits true = Return (Some mid)
    /\ convertbits mid tobits frombits false = Return (Some data).
Proof.
  intros [Ht Hle] Hd. eexists.
  apply (@convertbits_there_and_back frombits tobits Ht Hle data Hd).
Qed.

Lemma convertbits_roundtrip_witness :
  exists mid,
    convertbits [255; 1; 1] 8 5 true = Return (Some mid)
    /\ convertbits mid 5 8 false = Return (Some [255; 1; 1]).
Proof.
  apply (@convertbits_roundtrip [255; 1; 1] 8 5); [lia |].
  repeat constructor; lia.
Defined.

(** X18. With equal positive widths [convertbits] returns the values it was
    given, with or without padding, provided each fits. *)
Theorem convertbits_same_width (data : list Z) (w : Z) (pad : bool) :
  0 < w -> Forall (fun v => 0 <= v < 2 ^ w) data ->
  convertbits data w w pad = Return (Some data).
Proof.
  intros Hw Hd.
  rewrite (@convertbits_refines w w ltac:(lia) Hw). unfold convertbits_spec.
  replace (forallb (fits w) data) with true.
  2:{ symmetry. apply forallb_forall. intros x Hx. apply fits_spec.
      rewrite Forall_forall in Hd. apply Hd. exact Hx. }
  assert (EL : leftover_bits w w data = 0)
    by (unfold leftover_bits; rewrite Z.mul_comm; apply Z.mod_mul; lia).
  assert (EP : padded_group w w data = 0).
  { unfold padded_group. rewrite EL. change (2 ^ 0) with 1.
    rewrite Z.mod_1_r. reflexivity. }
  rewrite EL, EP, regrouped_same_width by assumption.
  replace (0 >=? w) with false by (symmetry; rewrite Z.geb_leb; apply Z.leb_gt; lia).
  destruct pad; cbn; rewrite ?app_nil_r; reflexivity.
Qed.

Lemma convertbits_same_width_witness :
  convertbits [3; 0; 7] 3 3 false = Return (Some [3; 0; 7]).
Proof.
  apply (@convertbits_same_width [3; 0; 7] 3 false); [lia |].
  repeat constructor; lia.
Defined.

(** ** validate on each interpreter *)

(** X19. Where [str] is a byte string and [int] has no [to_bytes]
    (Python 2), [validate] returns [True] or [False] on every text and for
    both networks: it raises nothing and always ends. *)
Theorem validate_total_py2 (addr : str) (testnet : bool) :
  exists b, validate Py2 addr testnet = Return b.
Proof.
  apply validate_returns_py2.
Qed.

(** X20. A text whose first two characters spell the network's prefix, in
    either case, is judged by the bech32 code alone: on every interpreter
    [validate] returns, and returns [True] exactly when [decode] accepts
    the text. *)
Theorem validate_bech32_returns (py : python) (addr : str) (testnet : bool) :
  lower (firstn 2 addr) = (if testnet then lit "tb" else lit "bc") ->
  exists b,
    validate py addr testnet = Return b
    /\ (b = true <->
        exists v prog,
          decode (if testnet then lit "tb" else lit "bc") addr
          = Return (Some (v, prog))).
Proof.
  intros Hp. unfold validate. rewrite Hp, str_eqb_refl. unfold validate_bech32.
  destruct (decode_returns (if testnet then lit "tb" else lit "bc") addr) as [r Hr].
  rewrite Hr. cbn [bind]. eexists. split; [reflexivity |].
  destruct r as [[v prog]|].
  - split; [intros _; exists v, prog; reflexivity | reflexivity].
  - split; [discriminate | intros [v [prog H]]; discriminate H].
Qed.

Lemma validate_bech32_returns_witness :
  exists b,
    validate Py3 (lit "TB1QRP33G0Q5C5TXSP9ARYSRX4K6ZDKFS4NCE4XJ0GDCCCEFVPYSXF3Q0SL5K7") true
    = Return b
    /\ (b = true <->
        exists v prog,
          decode (lit "tb")
            (lit "TB1QRP33G0Q5C5TXSP9ARYSRX4K6ZDKFS4NCE4XJ0GDCCCEFVPYSXF3Q0SL5K7")
          = Return (Some (v, prog))).
Proof.
  apply (@validate_bech32_returns Py3
           (lit "TB1QRP33G0Q5C5TXSP9ARYSRX4K6ZDKFS4NCE4XJ0GDCCCEFVPYSXF3Q0SL5K7") true).
  vm_compute. reflexivity.
Defined.

(** X21. A text that [bech32_decode] parses with the network's prefix goes
    down the bech32 path of [validate], whatever the interpreter: its first
    two characters, lower-cased, are that prefix. *)
Theorem validate_dispatch (py : python) (addr : str) (testnet : bool)
  (data : list Z) :
  bech32_decode addr = Some (if testnet then lit "tb" else lit "bc", data) ->
  lower (firstn 2 addr) = (if testnet then lit "tb" else lit "bc")
  /\ validate py addr testnet
     = validate_bech32 addr (if testnet then lit "tb" else lit "bc").
Proof.
  intros H. split.
  - apply (@hrp_prefix addr _ data H). destruct testnet; reflexivity.
  - apply (@validate_bech32_path py addr testnet data H).
Qed.

Lemma validate_dispatch_witness :
  lower (firstn 2 (lit "BC1SW50QA3JX3S")) = lit "bc"
  /\ validate Py2 (lit "BC1SW50QA3JX3S") false
     = validate_bech32 (lit "BC1SW50QA3JX3S") (lit "bc").
Proof.
  apply (@validate_dispatch Py2 (lit "BC1SW50QA3JX3S") false [16; 14; 20; 15; 0]).
  vm_compute. reflexivity.
Defined.

Lemma validate_base58_never_true (py : python) (addr : str) (mb : Z)
  (rest : list Z) :
  str_is_bytes py = false -> 0 <= mb < 1114112 ->
  validate_base58 py addr (mb :: rest) <> Return true.
Proof.
  intros Hp Hm. unfold validate_base58.
  destruct ((len addr <? 27) || (len addr >? 35)); [discriminate |].
  destruct (decode_base58 py addr 25) as [b | e |].
  - rewrite (@magic_loop_text py b mb rest Hp Hm). discriminate.
  - destruct e; discriminate.
  - discriminate.
Qed.

(** X22. Where [str] is text (Python 3), [validate] accepts no base58
    address: every text it returns [True] on carries the network's bech32
    prefix and is accepted by [decode]. *)
Theorem validate_text_accepts_segwit_only (py : python) (addr : str)
  (testnet : bool) :
  str_is_bytes py = false ->
  validate py addr testnet = Return true ->
  lower (firstn 2 addr) = (if testnet then lit "tb" else lit "bc")
  /\ exists v prog,
       decode (if testnet then lit "tb" else lit "bc") addr
       = Return (Some (v, prog)).
Proof.
  intros Hp H. unfold validate in H.
  destruct (str_eqb (lower (firstn 2 addr)) (if testnet then lit "tb" else lit "bc"))
    eqn:E.
  - apply str_eqb_eq in E. split; [exact E |].
    unfold validate_bech32 in H.
    destruct (decode (if testnet then lit "tb" else lit "bc") addr)
      as [[[v prog]|] | e |]; cbn [bind] in H; try discriminate H.
    exists v, prog. reflexivity.
  - exfalso. destruct testnet;
      apply (@validate_base58_never_true py addr _ _ Hp) in H; try exact H; lia.
Qed.

Lemma validate_text_accepts_segwit_only_witness :
  lower (firstn 2 (lit "BC1SW50QA3JX3S")) = lit "bc"
  /\ exists v prog, decode (lit "bc") (lit "BC1SW50QA3JX3S") = Return (Some (v, prog)).
Proof.
  apply (@validate_text_accepts_segwit_only Py3 (lit "BC1SW50QA3JX3S") false).
  - reflexivity.
  - vm_compute. reflexivity.
Defined.

Lemma validate_base58_accepted (addr : str) (m1 m2 : Z) :
  0 <= m1 < 256 -> 0 <= m2 < 256 ->
  validate_base58 Py2 addr [m1; m2] = Return true ->
  27 <= len addr <= 35
  /\ in_alphabet58 addr
  /\ base58_value addr < 256 ^ 25
  /\ exists b r,
       decode_base58 Py2 addr 25 = Return (b :: r)
       /\ len (b :: r) = 25
       /\ (byte_val b = m1 \/ byte_val b = m2)
       /\ take_last 4 (b :: r) = firstn 4 (sha256 (sha256 (drop_last 4 (b :: r))))
       /\ encode_base58 Py2 (b :: r) = Return addr.
Proof.
  intros H1 H2 H. unfold validate_base58 in H.
  destruct ((len addr <? 27) || (len addr >? 35)) eqn:EL; [discriminate H |].
  apply orb_false_iff in EL. destruct EL as [La Lb].
  apply Z.ltb_ge in La. rewrite Z.gtb_ltb in Lb. apply Z.ltb_ge in Lb.
  destruct (decode_base58 Py2 addr 25) as [bc | e |] eqn:D;
    [| destruct e; discriminate H | discriminate H].
  rewrite (@magic_loop_bytes bc m1 m2 H1 H2) in H. cbn [bind] in H.
  destruct bc as [|b r]; [discriminate H |].
  destruct ((byte_val b =? m1) || (byte_val b =? m2)) eqn:M; cbn [negb] in H;
    [| discriminate H].
  destruct (bytes_eqb (take_last 4 (b :: r))
              (firstn 4 (sha256 (sha256 (drop_last 4 (b :: r)))))) eqn:C;
    cbn [negb] in H; [| discriminate H].
  destruct (encode_base58_decodes Py2 (b :: r)) as [s [Hs Hv]].
  rewrite Hs in H. cbn [bind] in H.
  assert (Es : str_eqb addr s = true) by congruence.
  apply str_eqb_eq in Es. subst s.
  pose proof (@decode_base58_alphabet Py2 addr 25 (b :: r) D) as Ha.
  pose proof (@decode_base58_returned Py2 addr 25 (b :: r) ltac:(lia) D) as [Hlen _].
  rewrite (decode_loop_value 0 Ha) in Hv.
  assert (Ev : base58_value addr = bytes_value (b :: r))
    by (unfold base58_value; congruence).
  pose proof (bytes_value_bound (b :: r)) as Bd. rewrite Hlen in Bd.
  split; [lia |]. split; [exact Ha |]. split; [lia |].
  exists b, r. split; [reflexivity |]. split; [exact Hlen |]. split.
  - apply orb_true_iff in M. rewrite !Z.eqb_eq in M. exact M.
  - split; [apply bytes_eqb_eq; exact C | exact Hs].
Qed.

(** X23. Where [str] is a byte string (Python 2), a text that
    [validate_base58] accepts has 27 to 35 characters over the alphabet;
    its number fits in 25 bytes (nothing was truncated); the first of these
    bytes is one of the two magic bytes; the last four are the first four
    bytes of the double SHA-256 of the other twenty-one; and the text is
    the encoding of the 25 bytes. *)
Theorem validate_base58_accepts (addr : str) (m1 m2 : Z) :
  0 <= m1 < 256 -> 0 <= m2 < 256 ->
  validate_base58 Py2 addr [m1; m2] = Return true ->
  27 <= len addr <= 35
  /\ in_alphabet58 addr
  /\ base58_value addr < 256 ^ 25
  /\ exists b r,
       decode_base58 Py2 addr 25 = Return (b :: r)
       /\ len (b :: r) = 25
       /\ (byte_val b = m1 \/ byte_val b = m2)
       /\ take_last 4 (b :: r) = firstn 4 (sha256 (sha256 (drop_last 4 (b :: r))))
       /\ encode_base58 Py2 (b :: r) = Return addr.
Proof.
  apply validate_base58_accepted.
Qed.

Lemma validate_base58_accepts_witness :
  27 <= len (lit "1AGNa15ZQXAZUgFiqJ2i7Z2DPU2J6hW62i") <= 35
  /\ in_alphabet58 (lit "1AGNa15ZQXAZUgFiqJ2i7Z2DPU2J6hW62i")
  /\ base58_value (lit "1AGNa15ZQXAZUgFiqJ2i7Z2DPU2J6hW62i") < 256 ^ 25
  /\ exists b r,
       decode_base58 Py2 (lit "1AGNa15ZQXAZUgFiqJ2i7Z2DPU2J6hW62i") 25 = Return (b :: r)
       /\ len (b :: r) = 25
       /\ (byte_val b = 0 \/ byte_val b = 5)
       /\ take_last 4 (b :: r) = firstn 4 (sha256 (sha256 (drop_last 4 (b :: r))))
       /\ encode_base58 Py2 (b :: r) = Return (lit "1AGNa15ZQXAZUgFiqJ2i7Z2DPU2J6hW62i").
Proof.
  apply (@validate_base58_accepts (lit "1AGNa15ZQXAZUgFiqJ2i7Z2DPU2J6hW62i") 0 5);
    [lia | lia | vm_compute; reflexivity].
Defined.

(** X24. The two networks exclude each other on the base58 path: where
    [str] is a byte string, a text that [validate_base58] accepts for one
    pair of magic bytes is rejected for any pair that shares no byte with
    it, whatever its checksum. *)
Theorem magic_bytes_exclusive (addr : str) (m1 m2 n1 n2 : Z) :
  0 <= m1 < 256 -> 0 <= m2 < 256 -> 0 <= n1 < 256 -> 0 <= n2 < 256 ->
  m1 <> n1 -> m1 <> n2 -> m2 <> n1 -> m2 <> n2 ->
  validate_base58 Py2 addr [m1; m2] = Return true ->
  validate_base58 Py2 addr [n1; n2] = Return false.
Proof.
  intros Hm1 Hm2 Hn1 Hn2 D1 D2 D3 D4 H.
  pose proof (@validate_base58_accepted addr m1 m2 Hm1 Hm2 H) as I.
  destruct I as [Hl [_ [_ [b [r [Hd [_ [Hb _]]]]]]]].
  unfold validate_base58.
  rewrite (@length_checks addr Hl), Hd.
  rewrite (@magic_loop_bytes (b :: r) n1 n2 Hn1 Hn2). cbn [bind].
  replace ((byte_val b =? n1) || (byte_val b =? n2)) with false; [reflexivity |].
  symmetry. apply orb_false_iff. split; apply Z.eqb_neq; lia.
Qed.

Lemma magic_bytes_exclusive_witness :
  validate_base58 Py2 (lit "1AGNa15ZQXAZUgFiqJ2i7Z2DPU2J6hW62i") [111; 196]
  = Return false.
Proof.
  apply (@magic_bytes_exclusive (lit "1AGNa15ZQXAZUgFiqJ2i7Z2DPU2J6hW62i") 0 5 111 196);
    try lia.
  vm_compute. reflexivity.
Defined.

Lemma validate_base58_true_length (py : python) (addr : str) (magicbyte : list Z) :
  validate_base58 py addr magicbyte = Return true -> 27 <= len addr <= 35.
Proof.
  unfold validate_base58. intros H.
  destruct ((len addr <? 27) || (len addr >? 35)) eqn:E; [discriminate H |].
  apply orb_false_iff in E. destruct E as [La Lb].
  apply Z.ltb_ge in La. rewrite Z.gtb_ltb in Lb. apply Z.ltb_ge in Lb. lia.
Qed.

(** X25. Whatever the interpreter and the network, a text that [validate]
    accepts has between 14 and 74 characters: 27 to 35 on the base58 path;
    on the bech32 path the two-character prefix, the separator, the
    version, 4 to 64 program symbols and the six checksum symbols. *)
Theorem validate_true_length (py : python) (addr : str) (testnet : bool) :
  validate py addr testnet = Return true -> 14 <= len addr <= 74.
Proof.
  unfold validate. intros H.
  set (hrp := if testnet then lit "tb" else lit "bc") in *.
  assert (Hh : len hrp = 2) by (unfold hrp; destruct testnet; reflexivity).
  destruct (str_eqb (lower (firstn 2 addr)) hrp).
  - unfold validate_bech32 in H.
    destruct (decode hrp addr) as [[[v prog]|] | e |] eqn:D; cbn [bind] in H;
      try discriminate H.
    pose proof (@decode_Some hrp addr v prog D) as [rest0 [_ [_ [_ [Hp _]]]]].
    pose proof (@decode_accepted hrp addr v prog D)
      as [_ [_ [_ [rest [_ [Hn [Hlo Hlen]]]]]]].
    rewrite Hh in Hlen. pose proof (len_nonneg rest) as Hr.
    pose proof (Z.div_mod (5 * len rest) 8 ltac:(lia)) as DM.
    pose proof (Z.mod_pos_bound (5 * len rest) 8 ltac:(lia)) as MB.
    lia.
  - apply validate_base58_true_length in H. lia.
Qed.

Lemma validate_true_length_witness :
  14 <= len (lit "BC1SW50QA3JX3S") <= 74.
Proof.
  apply (@validate_true_length Py3 (lit "BC1SW50QA3JX3S") false).
  vm_compute. reflexivity.
Defined.

(** ** Regression values

    The digests of the empty message and of [abc] (FIPS 180-4), and the
    addresses of the module's test suite on an interpreter where [str] is a
    byte string. *)

Example sha256_empty :
  SHA256.hex (SHA256.digest_words []) =
  0xe3b0c44298fc1c149afbf4c8996fb92427ae41e4649b934ca495991b7852b855.
Proof. vm_compute. reflexivity. Qed.

Example sha256_abc :
  SHA256.hex (SHA256.digest_words (map byte_val (ascii_bytes "abc"))) =
  0xba7816bf8f01cfea414140de5dae2223b00361a396177a9cb410ff61f20015ad.
Proof. vm_compute. reflexivity. Qed.

Module Tests.
Local Open Scope string_scope.
Example t1 : validate Py2 (lit "1AGNa15ZQXAZUgFiqJ2i7Z2DPU2J6hW62i") false = Return true.
Proof. vm_compute. reflexivity. Qed.
Example t2 : validate Py3 (lit "1AGNa15ZQXAZUgFiqJ2i7Z2DPU2J6hW62i") false = Raise TypeError.
Proof. vm_compute. reflexivity. Qed.
Example t3 : map (fun a => validate Py2 (lit a) false)
  ["14oLvT2"; "111111111111111111114oLvT2"; "miwxGypTcHDXT3m4avmrMMC4co7XWqbG9r";
   "31uEbMgunupShBVTewXjtqbBv5MndwfXhb"; "175tWpb8K1S7NmH4Zx6rewF9WQrcZv245W";
   "LRNYxwQsHpm2A1VhawrJQti3nUkPN7vtq3"; "LRM8qA2YH5cdYDWhFMDLE7GHcW2YmXPT5m";
   ""; " 1C9wCniTU7PP7NLhFFHhMQfhmkqdY37zuP"; "1C9wCniTU7PP7NLhFFHhMQfhmkqdY37zuP ";
   "1C9wCniTU7PP7NLhFFHhMQfhmkqdY37zu?"; "12HzMcHURwmAxAkfWgtktYsF3vRTkBz4F4";
   "1AGPa15ZQXAZUgFiqJ2i7Z2DPU2J6hW62i"; "mpc1rKeaMSCuQnJevMViLuq8uWjHwgdjiV";
   "bc1qw508d6qejxtdg4y5r3zarvary0c5xw7kv8f3t5"; "BC13W508D6QEJXTDG4Y5R3ZARVARY0C5XW7KN40WF2";
   "bc1rw5uspcuh"; "bc10w508d6qejxtdg4y5r3zarvary0c5xw7kw508d6qejxtdg4y5r3zarvary0c5xw7kw5rljs90";
   "BC1QR508D6QEJXTDG4Y5R3ZARVARYV98GJ9P"; "bc1zw508d6qejxtdg4y5r3zarvaryvqyzf3du"; "bc1gmk9yu"]
  = repeat (Return false) 21.
Proof. vm_compute. reflexivity. Qed.
Example t4 : map (fun a => validate Py2 (lit a) false)
  ["1AGNa15ZQXAZUgFiqJ2i7Z2DPU2J6hW62i"; "1111111111111111111114oLvT2";
   "17NdbrSGoUotzeGCcMMCqnFkEvLymoou9j"; "1Eym7pyJcaambv8FG4ZoU8A4xsiL9us2zz";
   "1cYxzmWaSsjdrfTqzJ1zTXtR7k8je9qVv"; "12HzMcHURwmAxAkfWgtktYsF3vRTkBz4F3";
   "1GHATvgY4apPiBqmGkqfM3vWCbqtGAwKQ9"; "3QJmV3qfvL9SuYo34YihAf3sRCW3qSinyC";
   "BC1QW508D6QEJXTDG4Y5R3ZARVARY0C5XW7KV8F3T4";
   "bc1pw508d6qejxtdg4y5r3zarvary0c5xw7kw508d6qejxtdg4y5r3zarvary0c5xw7k7grplx";
   "BC1SW50QA3JX3S"]
  = repeat (Return true) 11.
Proof. vm_compute. reflexivity. Qed.
Example t5 : map (fun a => validate Py2 (lit a) true)
  ["mpc1rKeaMSCuQnJevMViLuq8uWjHwgdjiV";
   "tb1qrp33g0q5c5txsp9arysrx4k6zdkfs4nce4xj0gdcccefvpysxf3q0sl5k7";
   "tb1qqqqqp399et2xygdj5xreqhjjvcmzhxw4aywxecjdzew6hylgvsesrxh6hy"]
  = repeat (Return true) 3.
Proof. vm_compute. reflexivity. Qed.
Example t6 : map (fun a => validate Py2 (lit a) true)
  ["tc1qw508d6qejxtdg4y5r3zarvary0c5xw7kg3g4ty";
   "tb1qrp33g0q5c5txsp9arysrx4k6zdkfs4nce4xj0gdcccefvpysxf3q0sL5k7";
   "tb1qrp33g0q5c5txsp9arysrx4k6zdkfs4nce4xj0gdcccefvpysxf3pjxtptv"]
  = repeat (Return false) 3.
Proof. vm_compute. reflexivity. Qed.
End Tests.
